(** * Contact-form backend (case-closed-backend/server.js)

    A shallow embedding of the request handler of [server.js] and of the
    helpers it is built from ([sanitize], [isEmail], [escapeHtml],
    [createTransporter]), followed by the properties of the handler that the
    specification states.

    JavaScript strings are sequences of UTF-16 code units; [length], [slice],
    [trim] and the regular expressions of the source all work on code units,
    so a string is a [list N] here. *)

From Stdlib Require Import NArith ZArith Strings.String Strings.Ascii Lia.
From Stdlib Require Import Numbers.DecimalString.
From stdpp Require Import base list gmap.

Local Open Scope N_scope.
Local Open Scope list_scope.

(** ** Strings *)

Abbreviation jsstring := (list N).

(** The code units of an ASCII literal of the source. *)
Definition js (s : string) : jsstring :=
  map N_of_ascii (list_ascii_of_string s).

Definition ch_lf : N := 10.
Definition ch_cr : N := 13.
Definition ch_space : N := 32.
Definition ch_dquote : N := 34.
Definition ch_amp : N := 38.
Definition ch_squote : N := 39.
Definition ch_dot : N := 46.
Definition ch_lt : N := 60.
Definition ch_gt : N := 62.
Definition ch_at : N := 64.

(** [[\r\n]] *)
Definition is_crlf (c : N) : bool := (c =? ch_cr) || (c =? ch_lf).

(** [\s] of a regular expression without the [u] flag, which is also the set
    [String.prototype.trim] strips: WhiteSpace and LineTerminator. *)
Definition is_space (c : N) : bool :=
  ((9 <=? c) && (c <=? 13)) || (c =? 32) || (c =? 160) || (c =? 5760)
  || ((8192 <=? c) && (c <=? 8202)) || (c =? 8232) || (c =? 8233)
  || (c =? 8239) || (c =? 8287) || (c =? 12288) || (c =? 65279).

(** [s.replace(/[\r\n]+/g, " ")]: [in_run] tells that the code unit before
    the current one was part of the run being replaced. *)
Fixpoint replace_crlf_from (in_run : bool) (s : jsstring) : jsstring :=
  match s with
  | [] => []
  | c :: rest =>
      if is_crlf c
      then (if in_run then replace_crlf_from true rest
            else ch_space :: replace_crlf_from true rest)
      else c :: replace_crlf_from false rest
  end.

Definition replace_crlf (s : jsstring) : jsstring := replace_crlf_from false s.

Fixpoint trimStart (s : jsstring) : jsstring :=
  match s with
  | [] => []
  | c :: rest => if is_space c then trimStart rest else s
  end.

Fixpoint trimEnd (s : jsstring) : jsstring :=
  match s with
  | [] => []
  | c :: rest =>
      match trimEnd rest with
      | [] => if is_space c then [] else [c]
      | r => c :: r
      end
  end.

(** [s.trim()] *)
Definition trim (s : jsstring) : jsstring := trimEnd (trimStart s).

(** [s.slice(0, n)] *)
Definition slice0 (n : nat) (s : jsstring) : jsstring := take n s.

(** [s.replaceAll(c, by)] for a pattern of one code unit. *)
Fixpoint replaceAll (c : N) (by_ : jsstring) (s : jsstring) : jsstring :=
  match s with
  | [] => []
  | d :: rest =>
      if d =? c then by_ ++ replaceAll c by_ rest else d :: replaceAll c by_ rest
  end.

(** [xs.join(sep)] *)
Fixpoint join (sep : jsstring) (xs : list jsstring) : jsstring :=
  match xs with
  | [] => []
  | [x] => x
  | x :: rest => x ++ sep ++ join sep rest
  end.

(** ** Regular expressions

    The patterns of the source use character classes, literals, sequencing
    and [+] only. Matching is by derivatives; [Matches] is the language of a
    pattern. *)

Inductive regex :=
| Nothing
| Eps
| Class (p : N -> bool)
| Seq (r1 r2 : regex)
| Alt (r1 r2 : regex)
| Star (r : regex).

Definition Plus (r : regex) : regex := Seq r (Star r).
Definition Lit (c : N) : regex := Class (N.eqb c).

Fixpoint Word (s : jsstring) : regex :=
  match s with
  | [] => Eps
  | c :: rest => Seq (Lit c) (Word rest)
  end.

Fixpoint nullable (r : regex) : bool :=
  match r with
  | Nothing => false
  | Eps => true
  | Class _ => false
  | Seq r1 r2 => nullable r1 && nullable r2
  | Alt r1 r2 => nullable r1 || nullable r2
  | Star _ => true
  end.

Fixpoint deriv (c : N) (r : regex) : regex :=
  match r with
  | Nothing => Nothing
  | Eps => Nothing
  | Class p => if p c then Eps else Nothing
  | Seq r1 r2 =>
      if nullable r1
      then Alt (Seq (deriv c r1) r2) (deriv c r2)
      else Seq (deriv c r1) r2
  | Alt r1 r2 => Alt (deriv c r1) (deriv c r2)
  | Star r1 => Seq (deriv c r1) (Star r1)
  end.

(** [/^r$/.test(s)] *)
Fixpoint test_whole (r : regex) (s : jsstring) : bool :=
  match s with
  | [] => nullable r
  | c :: rest => test_whole (deriv c r) rest
  end.

(** [/r$/.test(s)]: the match may start anywhere. *)
Definition test_suffix (r : regex) (s : jsstring) : bool :=
  test_whole (Seq (Star (Class (fun _ => true))) r) s.

Inductive Matches : regex -> jsstring -> Prop :=
| M_Eps : Matches Eps []
| M_Class p c : p c = true -> Matches (Class p) [c]
| M_Seq r1 r2 s1 s2 :
    Matches r1 s1 -> Matches r2 s2 -> Matches (Seq r1 r2) (s1 ++ s2)
| M_AltL r1 r2 s : Matches r1 s -> Matches (Alt r1 r2) s
| M_AltR r1 r2 s : Matches r2 s -> Matches (Alt r1 r2) s
| M_StarNil r : Matches (Star r) []
| M_StarCons r s1 s2 :
    Matches r s1 -> Matches (Star r) s2 -> Matches (Star r) (s1 ++ s2).

(** [[^\s@]] *)
Definition not_space_at (c : N) : bool := negb (is_space c || (c =? ch_at)).

(** [/^[^\s@]+@[^\s@]+\.[^\s@]+$/] *)
Definition email_regex : regex :=
  Seq (Plus (Class not_space_at))
    (Seq (Lit ch_at)
      (Seq (Plus (Class not_space_at))
        (Seq (Lit ch_dot) (Plus (Class not_space_at))))).

(** ** Values and their coercions *)

(** What a [throw] carries. *)
Inductive exn :=
| TypeError (msg : jsstring)
| Error (msg : jsstring).

(** The completion of an expression that may throw. *)
Inductive result (A : Type) :=
| Ok (a : A)
| Throw (e : exn).
Arguments Ok {A} a.
Arguments Throw {A} e.

Definition bind {A B : Type} (m : result A) (k : A -> result B) : result B :=
  match m with
  | Ok a => k a
  | Throw e => Throw e
  end.

Notation "'let!' x ':=' m 'in' k" := (bind m (fun x => k))
  (at level 10, x name, m at level 100, k at level 200).

(** The Number type is used through its coercions only; they are the
    built-ins of the language and are taken as an interface. *)
Class JsNumber := {
  number : Type;
  (** [ToBoolean]: false for [+0], [-0] and [NaN] *)
  number_truthy : number -> bool;
  (** [Number::toString] *)
  NumberToString : number -> jsstring;
  (** [Number(s)] for a string [s] *)
  StringToNumber : jsstring -> number;
  (** the value of an integer literal *)
  number_of_N : N -> number
}.

#[local] Set Warnings "-register-all".

Section Values.
Context `{JsNumber}.

(** A parsed request body: what [express.json] and [express.urlencoded]
    produce, and [undefined] for a property that is absent. An object is the
    list of its own properties. *)
Inductive value :=
| Undefined
| Null
| Bool (b : bool)
| Num (n : number)
| Str (s : jsstring)
| Arr (elems : list value)
| Obj (props : list (jsstring * value)).

Definition ToBoolean (v : value) : bool :=
  match v with
  | Undefined | Null => false
  | Bool b => b
  | Num n => number_truthy n
  | Str s => negb (bool_decide (s = []))
  | Arr _ | Obj _ => true
  end.

(** [a || b] *)
Definition or_else (a b : value) : value := if ToBoolean a then a else b.

Definition has_own (props : list (jsstring * value)) (key : jsstring) : bool :=
  existsb (fun kv => bool_decide (kv.1 = key)) props.

(** [String(v)]. An array is joined with commas, [null] and [undefined]
    elements giving the empty string. An object takes
    [Object.prototype.toString] unless it has an own property [toString]: a
    parsed body holds no function, so that property is not callable,
    [valueOf] gives back the object, and the coercion throws. *)
Fixpoint ToString (v : value) : result jsstring :=
  match v with
  | Undefined => Ok (js "undefined")
  | Null => Ok (js "null")
  | Bool true => Ok (js "true")
  | Bool false => Ok (js "false")
  | Num n => Ok (NumberToString n)
  | Str s => Ok s
  | Arr elems =>
      (fix join_elems (l : list value) : result jsstring :=
         match l with
         | [] => Ok []
         | x :: rest =>
             let! s := match x with
                       | Undefined | Null => Ok []
                       | _ => ToString x
                       end in
             match rest with
             | [] => Ok s
             | _ => let! r := join_elems rest in Ok (s ++ js "," ++ r)
             end
         end) elems
  | Obj props =>
      if has_own props (js "toString")
      then Throw (TypeError (js "Cannot convert object to primitive value"))
      else Ok (js "[object Object]")
  end.

(** [obj?.key] for a key that no prototype defines. *)
Definition get_opt (obj : value) (key : jsstring) : value :=
  match obj with
  | Obj props =>
      match find (fun kv => bool_decide (kv.1 = key)) props with
      | Some kv => kv.2
      | None => Undefined
      end
  | _ => Undefined
  end.

(** ** The helpers of the source *)

Definition sanitize (str : value) : result jsstring :=
  let! s := ToString (or_else str (Str [])) in
  Ok (slice0 4000 (trim (replace_crlf s))).

Definition escapeHtml (str : value) : result jsstring :=
  let! s := ToString (or_else str (Str [])) in
  Ok (replaceAll ch_squote (js "&#039;")
       (replaceAll ch_dquote (js "&quot;")
         (replaceAll ch_gt (js "&gt;")
           (replaceAll ch_lt (js "&lt;")
             (replaceAll ch_amp (js "&amp;") s))))).

Definition isEmail (str : value) : result bool :=
  let! s := ToString (or_else str (Str [])) in
  Ok (test_whole email_regex (trim s)).

End Values.

(** ** Configuration, requests and the mail transport *)

(** [process.env]: a variable is a string, or [undefined] when unset. *)
Record env := {
  PORT : option jsstring;
  CONTACT_TO_EMAIL : option jsstring;
  CONTACT_FROM_EMAIL : option jsstring;
  SMTP_HOST : option jsstring;
  SMTP_PORT : option jsstring;
  SMTP_SECURE : option jsstring;
  SMTP_USER : option jsstring;
  SMTP_PASS : option jsstring;
  ALLOWED_ORIGIN : option jsstring
}.

(** [ToBoolean] of a string or [undefined]. *)
Definition truthy (x : option jsstring) : bool :=
  match x with
  | Some (_ :: _) => true
  | _ => false
  end.

(** [a || b] on strings or [undefined]. *)
Definition or_str (a b : option jsstring) : option jsstring :=
  if truthy a then a else b.

(** A template literal's rendering of a string or [undefined]. *)
Definition show (x : option jsstring) : jsstring :=
  match x with
  | Some s => s
  | None => js "undefined"
  end.

Inductive http_method := GET | POST | OPTIONS | OtherMethod.

#[global] Instance http_method_eq_dec : EqDecision http_method.
Proof. solve_decision. Defined.

Section Server.
Context `{JsNumber}.

Definition value_of (x : option jsstring) : value :=
  match x with
  | Some s => Str s
  | None => Undefined
  end.

(** What the handler reads of a request: [req.body], [req.ip] and
    [req.get("user-agent")]; the method, path, [Origin] header and arrival
    time (in milliseconds) are read by the middleware. [body_error] is the
    error that [express.json] or [express.urlencoded] passes on when it
    cannot read the body (not valid JSON, too large); [body] is then not
    set. *)
Record request := {
  method : http_method;
  path : jsstring;
  origin : option jsstring;
  body_error : option exn;
  body : value;
  ip : option jsstring;
  user_agent : option jsstring;
  arrival : N
}.

(** The options given to [nodemailer.createTransport]. *)
Record transport := {
  host : jsstring;
  port : number;
  secure : bool;
  auth_user : jsstring;
  auth_pass : jsstring
}.

(** The argument of [transporter.sendMail]. *)
Record mail := {
  mail_from : option jsstring;
  mail_to : option jsstring;
  subject : jsstring;
  text : jsstring;
  html : jsstring;
  replyTo : jsstring
}.

(** What the handler does not decide: the strings that successive
    [new Date().toISOString()] calls give while a request is handled, and
    whether the relay takes a mail ([None]) or [sendMail] rejects. *)
Record world := {
  clock : nat -> jsstring;
  relay : transport -> mail -> option exn
}.

(** What a request leaves behind, oldest first. *)
Inductive effect :=
| SendMail (t : transport) (m : mail)
| ConsoleError (e : exn).

Definition missing_smtp : jsstring :=
  js "Missing SMTP config. Set SMTP_HOST, SMTP_USER, SMTP_PASS (and optionally SMTP_PORT/SMTP_SECURE).".

Definition createTransporter (e : env) : result transport :=
  let port := if truthy (SMTP_PORT e)
              then StringToNumber (show (SMTP_PORT e))
              else number_of_N 465 in
  let secure :=
    bool_decide (show (or_str (SMTP_SECURE e) (Some (js "true"))) = js "true") in
  if negb (truthy (SMTP_HOST e)) || negb (truthy (SMTP_USER e))
     || negb (truthy (SMTP_PASS e))
  then Throw (Error missing_smtp)
  else Ok {| host := show (SMTP_HOST e); port := port; secure := secure;
             auth_user := show (SMTP_USER e); auth_pass := show (SMTP_PASS e) |}.

(** *** The handler's effects

    A computation reads the clock, appends to the trace, and completes with
    a value or a thrown error. *)
Record hstate := { ticks : nat; trace : list effect }.

Definition M (A : Type) : Type := hstate -> result A * hstate.

Definition ret {A : Type} (a : A) : M A := fun st => (Ok a, st).

Definition mbind {A B : Type} (m : M A) (k : A -> M B) : M B :=
  fun st =>
    match m st with
    | (Ok a, st') => k a st'
    | (Throw e, st') => (Throw e, st')
    end.

Notation "'do!' x ':=' m 'in' k" := (mbind m (fun x => k))
  (at level 10, x name, m at level 100, k at level 200).

Definition lift {A : Type} (r : result A) : M A := fun st => (r, st).

(** [try { body } catch (err) { handler }] *)
Definition try_catch {A : Type} (body : M A) (handler : exn -> M A) : M A :=
  fun st =>
    match body st with
    | (Ok a, st') => (Ok a, st')
    | (Throw e, st') => handler e st'
    end.

(** [new Date().toISOString()] *)
Definition now_iso (w : world) : M jsstring :=
  fun st => (Ok (clock w (ticks st)),
             {| ticks := S (ticks st); trace := trace st |}).

(** [await transporter.sendMail(m)] *)
Definition sendMail (w : world) (t : transport) (m : mail) : M unit :=
  fun st =>
    let st' := {| ticks := ticks st; trace := trace st ++ [SendMail t m] |} in
    match relay w t m with
    | None => (Ok tt, st')
    | Some e => (Throw e, st')
    end.

(** [console.error(err)] *)
Definition console_error (e : exn) : M unit :=
  fun st => (Ok tt, {| ticks := ticks st; trace := trace st ++ [ConsoleError e] |}).

(** *** Responses *)

Inductive payload :=
| Json (ok : bool) (error : option jsstring)
| Text (s : jsstring)
| NoContent.

Record reply := { status : N; content : payload }.

(** [res.json({ ok: true })] *)
Definition json_ok : reply := {| status := 200; content := Json true None |}.

(** [res.status(code).json({ ok: false, error: msg })] *)
Definition json_error (code : N) (msg : jsstring) : reply :=
  {| status := code; content := Json false (Some msg) |}.

Definition name_error : jsstring := js "Please enter your name.".
Definition email_error : jsstring := js "Please enter a valid email.".
Definition message_error : jsstring := js "Please enter a longer message.".
Definition recipient_error : jsstring :=
  js "Server not configured: CONTACT_TO_EMAIL missing.".
Definition send_error : jsstring := js "Failed to send message.".

(** *** The bodies of the mail *)

Definition nl : jsstring := [ch_lf].
Definition quot : jsstring := [ch_dquote].
Definition em_dash : jsstring := [8212].
Definition bullet : jsstring := [8226].

Definition subject_of (name : jsstring) : jsstring :=
  js "Case Closed Inquiry " ++ em_dash ++ js " " ++ name.

Definition text_of (name email message sent_at : jsstring)
    (ip ua : option jsstring) : jsstring :=
  join nl
    [ js "New inquiry from the Case Closed website";
      js "---------------------------------------";
      js "Name: " ++ name;
      js "Email: " ++ email;
      [];
      js "Message:";
      message;
      [];
      js "Sent at: " ++ sent_at;
      js "IP: " ++ show ip;
      js "User-Agent: " ++ show (or_str ua (Some (js "unknown"))) ].

(** The template literal of the HTML body, its holes already evaluated. *)
Definition html_of (name email message sent_at ip ua : jsstring) : jsstring :=
  nl ++ js "      <h2>New inquiry from the Case Closed website</h2>" ++ nl
  ++ js "      <p><strong>Name:</strong> " ++ name ++ js "<br/>" ++ nl
  ++ js "         <strong>Email:</strong> " ++ email ++ js "</p>" ++ nl
  ++ js "      <p><strong>Message:</strong></p>" ++ nl
  ++ js "      <pre style=" ++ quot
  ++ js "white-space:pre-wrap; font-family:Inter,system-ui,Arial; background:#f7f2ee; padding:12px; border-radius:10px; border:1px solid #e8d7cc;"
  ++ quot ++ js ">" ++ message ++ js "</pre>" ++ nl
  ++ js "      <p style=" ++ quot ++ js "color:#6b625c; font-size:12px;" ++ quot
  ++ js ">" ++ nl
  ++ js "        Sent at " ++ sent_at ++ js " " ++ bullet ++ js " IP " ++ ip
  ++ js " " ++ bullet ++ js " UA " ++ ua ++ nl
  ++ js "      </p>" ++ nl
  ++ js "    ".

(** *** [app.post("/api/contact", ...)] *)

Definition contact_handler (e : env) (w : world) (req : request) : M reply :=
  try_catch
    (do! name := lift (sanitize (get_opt (body req) (js "name"))) in
     do! email := lift (sanitize (get_opt (body req) (js "email"))) in
     do! message := lift (sanitize (get_opt (body req) (js "message"))) in
     if negb (truthy (Some name)) || (length name <? 2)%nat then
       ret (json_error 400 name_error)
     else
     do! email_bad := (if negb (truthy (Some email)) then ret true
                       else do! shaped := lift (isEmail (Str email)) in
                            ret (negb shaped)) in
     if email_bad then
       ret (json_error 400 email_error)
     else if negb (truthy (Some message)) || (length message <? 10)%nat then
       ret (json_error 400 message_error)
     else
     let to := CONTACT_TO_EMAIL e in
     let from := or_str (CONTACT_FROM_EMAIL e) (SMTP_USER e) in
     if negb (truthy to) then
       ret (json_error 500 recipient_error)
     else
     do! transporter := lift (createTransporter e) in
     let subject := subject_of name in
     do! sent_at := now_iso w in
     let text :=
       text_of name email message sent_at (ip req) (user_agent req) in
     do! h_name := lift (escapeHtml (Str name)) in
     do! h_email := lift (escapeHtml (Str email)) in
     do! h_message := lift (escapeHtml (Str message)) in
     do! h_sent_at := now_iso w in
     do! h_ip := lift (escapeHtml (value_of (ip req))) in
     do! h_ua := lift (escapeHtml
                        (value_of (or_str (user_agent req) (Some (js "unknown"))))) in
     let html := html_of h_name h_email h_message h_sent_at h_ip h_ua in
     do! _ := sendMail w transporter
                {| mail_from := from; mail_to := to; subject := subject;
                   text := text; html := html; replyTo := email |} in
     ret json_ok)
    (fun err =>
       do! _ := console_error err in
       ret (json_error 500 send_error)).

(** The reply to a request and what it left behind. *)
Definition handle_contact (e : env) (w : world) (req : request)
    : result reply * list effect :=
  let (r, st) := contact_handler e w req {| ticks := 0; trace := [] |} in
  (r, trace st).

(** ** The application: middleware and routes *)

(** An element of the [origin] option of [cors]: a regular expression
    [/r$/], or a string compared with [===]. *)
Inductive origin_rule :=
| OriginPattern (r : regex)
| OriginString (s : jsstring).

(** [s.split(",")] *)
Fixpoint split_on (c : N) (s : jsstring) : list jsstring :=
  match s with
  | [] => [[]]
  | d :: rest =>
      if d =? c then [] :: split_on c rest
      else match split_on c rest with
           | [] => [[d]]
           | x :: xs => (d :: x) :: xs
           end
  end.

(** What the top level of the module computes from the environment when the
    server starts. *)
Record config := {
  allowedOrigins : list jsstring;
  cors_origin : list origin_rule;
  windowMs : N;
  max : nat;
  listen_port : value
}.

Definition startup (e : env) : config :=
  {| allowedOrigins :=
       filter (fun s => s <> [])
         (map trim (split_on 44 (show (or_str (ALLOWED_ORIGIN e) (Some [])))));
     cors_origin :=
       [ OriginPattern (Word (js ".netlify.app"));
         OriginString (js "http://localhost:5500");
         OriginString (js "http://127.0.0.1:5500") ];
     windowMs := 10 * 60 * 1000;
     max := 20;
     listen_port := or_else (value_of (PORT e)) (Num (number_of_N 3000)) |}.

(** Modelled from the spec: the [cors] middleware is not part of the
    sources. It allows the origins of its [origin] option, here a list: a
    string allows the [Origin] header equal to it, a pattern allows the
    headers it matches (the header is coerced to a string for the test, so
    an absent header is tested as [undefined]). *)
Definition isOriginAllowed (o : option jsstring) (rules : list origin_rule)
    : bool :=
  existsb (fun rule =>
             match rule with
             | OriginPattern r => test_suffix r (show o)
             | OriginString s => bool_decide (o = Some s)
             end) rules.

(** The [Access-Control-Allow-Origin] header of the response. *)
Definition allow_origin_header (c : config) (o : option jsstring)
    : option jsstring :=
  if isOriginAllowed o (cors_origin c) then o else None.

(** Modelled from the spec: the rate limiter is the [express-rate-limit]
    middleware, which is not part of the sources. Following sections 5 and 6
    of the specification it keeps, per client address, the number of
    requests of the current window and the time at which that window ends;
    a request is let through while the count, this request included, does
    not exceed the cap. The window length and the cap are those the source
    configures. *)
Definition limiter_hit (c : config) (store : gmap (option jsstring) (nat * N))
    (key : option jsstring) (t : N)
    : bool * gmap (option jsstring) (nat * N) :=
  let entry :=
    match store !! key with
    | Some (hits, reset) =>
        if t <? reset then (S hits, reset) else (1%nat, t + windowMs c)
    | None => (1%nat, t + windowMs c)
    end in
  ((entry.1 <=? max c)%nat, <[key := entry]> store).

Definition lower (c : N) : N := if (65 <=? c) && (c <=? 90) then c + 32 else c.

(** Modelled from the spec: route matching belongs to Express. A route
    matches its path whatever the case of the letters and with an optional
    final slash; [app.use(prefix, ...)] matches the prefix itself and every
    path below it. *)
Definition route_is (pattern p : jsstring) : bool :=
  bool_decide (map lower p = pattern)
  || bool_decide (map lower p = pattern ++ js "/").

(** Modelled from the spec: the paths a middleware mounted with
    [app.use(prefix, ...)] sees, see [route_is]. *)
Definition mounted_at (prefix p : jsstring) : bool :=
  bool_decide (map lower p = prefix)
  || bool_decide (take (length prefix + 1) (map lower p) = prefix ++ js "/").

Record response := {
  res_status : N;
  res_content : payload;
  res_allow_origin : option jsstring
}.

Definition too_many : jsstring :=
  js "Too many requests, please try again later.".

Definition running : jsstring :=
  js "Case Closed backend is running " ++ [9989].

(** [res.status(500).json({ ok: false, error: "Server error" })] of the
    final error middleware; [cors] has not run when a parser fails, so the
    response has no [Access-Control-Allow-Origin]. *)
Definition server_error : response :=
  {| res_status := 500;
     res_content := Json false (Some (js "Server error"));
     res_allow_origin := None |}.

(** One request through the middleware in the order it is registered: the
    body parsers, whose error goes past everything else to the final error
    middleware, which logs it; [cors] (which answers a preflight itself);
    the limiter mounted at [/api/contact]; the routes; and for an error
    that escapes a route the final error middleware again. *)
Definition serve (e : env) (w : world)
    (store : gmap (option jsstring) (nat * N)) (req : request)
    : response * list effect * gmap (option jsstring) (nat * N) :=
  let c := startup e in
  let acao := allow_origin_header c (origin req) in
  let respond (r : reply) :=
    {| res_status := status r; res_content := content r;
       res_allow_origin := acao |} in
  match body_error req, method req with
  | Some err, _ => (server_error, [ConsoleError err], store)
  | None, OPTIONS =>
      (respond {| status := 204; content := NoContent |}, [], store)
  | None, _ =>
      let (pass, store') :=
        if mounted_at (js "/api/contact") (path req)
        then limiter_hit c store (ip req) (arrival req)
        else (true, store) in
      if negb pass then
        (respond {| status := 429; content := Text too_many |}, [], store')
      else if bool_decide (method req = GET) && route_is (js "/health") (path req)
      then (respond json_ok, [], store')
      else if bool_decide (method req = POST)
              && route_is (js "/api/contact") (path req)
      then match handle_contact e w req with
           | (Ok r, effects) => (respond r, effects, store')
           | (Throw err, effects) =>
               (respond (json_error 500 (js "Server error")),
                effects ++ [ConsoleError err], store')
           end
      else if bool_decide (method req = GET) && route_is (js "/") (path req)
      then (respond {| status := 200; content := Text running |}, [], store')
      else (respond {| status := 404; content := NoContent |}, [], store')
  end.

End Server.

(** ** A Number instance for the examples

    The integers and [NaN] ([None]). It agrees with the language on what the
    examples use: integer literals, numerals made of decimal digits, and the
    decimal rendering of an integer below [10^21]; any other numeral reads as
    [NaN] here. *)

Definition read_digits (s : jsstring) : option Z :=
  foldl (fun acc c =>
           match acc with
           | Some z =>
               if (48 <=? c) && (c <=? 57) then Some (10 * z + Z.of_N (c - 48))%Z
               else None
           | None => None
           end) (Some 0%Z) s.

#[global] Instance integer_numbers : JsNumber := {|
  number := option Z;
  number_truthy := fun n => match n with Some z => negb (z =? 0)%Z | None => false end;
  NumberToString := fun n =>
    match n with
    | Some z => js (NilZero.string_of_int (Z.to_int z))
    | None => js "NaN"
    end;
  StringToNumber := read_digits;
  number_of_N := fun n => Some (Z.of_N n)
|}.

(** ** Notions the properties are stated with *)

Definition no_crlf (s : jsstring) : Prop := Forall (fun c => is_crlf c = false) s.
Definition blank (s : jsstring) : Prop := Forall (fun c => is_space c = true) s.

Definition starts_with (p : N -> bool) (s : jsstring) : Prop :=
  match s with
  | c :: _ => p c = true
  | [] => False
  end.

Definition ends_with (p : N -> bool) (s : jsstring) : Prop :=
  match last s with
  | Some c => p c = true
  | None => False
  end.

(** [collapsed s t]: [t] is [s] with every maximal run of carriage returns
    and line feeds replaced by one space. A run is maximal because what
    follows it does not start with such a character, and what precedes it is
    either the start of the string or a character kept as it is. *)
Inductive collapsed : jsstring -> jsstring -> Prop :=
| collapsed_nil : collapsed [] []
| collapsed_keep c s t :
    is_crlf c = false -> collapsed s t -> collapsed (c :: s) (c :: t)
| collapsed_run run s t :
    run <> [] -> Forall (fun c => is_crlf c = true) run ->
    ~ starts_with is_crlf s -> collapsed s t ->
    collapsed (run ++ s) (ch_space :: t).

(** [trimmed s t]: [t] is [s] without its leading and trailing white space. *)
Definition trimmed (s t : jsstring) : Prop :=
  (exists l r, s = l ++ t ++ r /\ blank l /\ blank r)
  /\ ~ starts_with is_space t /\ ~ ends_with is_space t.

(** The entity that stands for a character in HTML. *)
Definition escape_char (c : N) : jsstring :=
  if c =? ch_amp then js "&amp;"
  else if c =? ch_lt then js "&lt;"
  else if c =? ch_gt then js "&gt;"
  else if c =? ch_dquote then js "&quot;"
  else if c =? ch_squote then js "&#039;"
  else [c].

(** A text with each character replaced by its entity. *)
Definition escaped (s : jsstring) : jsstring := flat_map escape_char s.

(** What [sanitize] does to a string. *)
Definition sanitize_string (s : jsstring) : jsstring :=
  slice0 4000 (trim (replace_crlf s)).

(** What [escapeHtml] does to a string. *)
Definition escape_string (s : jsstring) : jsstring :=
  replaceAll ch_squote (js "&#039;")
    (replaceAll ch_dquote (js "&quot;")
      (replaceAll ch_gt (js "&gt;")
        (replaceAll ch_lt (js "&lt;")
          (replaceAll ch_amp (js "&amp;") s)))).

(** The characters that open or close a tag or an attribute value. *)
Definition is_markup (c : N) : bool :=
  (c =? ch_lt) || (c =? ch_gt) || (c =? ch_dquote) || (c =? ch_squote).

(** The strings the pattern of [isEmail] holds of: one [@] with a non-empty
    local part before it, no white space, and after the [@] a dot that is
    neither the first nor the last character. *)
Definition email_shaped (t : jsstring) : Prop :=
  exists local domain,
    t = local ++ ch_at :: domain /\ local <> []
    /\ (ch_at ∉ local) /\ (ch_at ∉ domain)
    /\ Forall (fun c => is_space c = false) t
    /\ exists x y, domain = x ++ ch_dot :: y /\ x <> [] /\ y <> [].

(** The shape in the words of the specification: not empty, exactly one
    [@], at least one dot after it, no white space. *)
Definition loosely_email_shaped (t : jsstring) : Prop :=
  t <> []
  /\ (exists a b, t = a ++ ch_at :: b /\ (ch_at ∉ a) /\ (ch_at ∉ b) /\ (ch_dot ∈ b))
  /\ Forall (fun c => is_space c = false) t.

Section Notions.
Context `{JsNumber}.

(** A string or [undefined] as [escapeHtml] reads it. *)
Definition text_or_empty (x : option jsstring) : jsstring :=
  match x with
  | Some s => s
  | None => []
  end.

(** The values that are not objects. *)
Definition primitive (v : value) : Prop :=
  match v with
  | Arr _ | Obj _ => False
  | _ => True
  end.

(** The three fields of a request after [sanitize]. *)
Definition sanitized_fields (req : request) (name email message : jsstring)
    : Prop :=
  sanitize (get_opt (body req) (js "name")) = Ok name
  /\ sanitize (get_opt (body req) (js "email")) = Ok email
  /\ sanitize (get_opt (body req) (js "message")) = Ok message.

(** The fields pass the three rules of the validator. *)
Definition valid_fields (name email message : jsstring) : Prop :=
  (2 <= length name)%nat /\ isEmail (Str email) = Ok true
  /\ (10 <= length message)%nat.

(** The relay host and both credentials are set. *)
Definition relay_configured (e : env) : Prop :=
  truthy (SMTP_HOST e) = true /\ truthy (SMTP_USER e) = true
  /\ truthy (SMTP_PASS e) = true.

(** The mail a valid submission is sent as: the text body holds the fields
    as they are, the HTML body holds them escaped, and replies go to the
    submitter. *)
Definition expected_mail (e : env) (w : world) (req : request)
    (name email message : jsstring) : mail :=
  {| mail_from := or_str (CONTACT_FROM_EMAIL e) (SMTP_USER e);
     mail_to := CONTACT_TO_EMAIL e;
     subject := subject_of name;
     text := text_of name email message (clock w 0) (ip req) (user_agent req);
     html := html_of (escaped name) (escaped email) (escaped message)
               (clock w 1) (escaped (text_or_empty (ip req)))
               (escaped (show (or_str (user_agent req) (Some (js "unknown")))));
     replyTo := email |}.

(** The same environment with another value of [ALLOWED_ORIGIN]. *)
Definition with_ALLOWED_ORIGIN (v : option jsstring) (e : env) : env :=
  {| PORT := PORT e;
     CONTACT_TO_EMAIL := CONTACT_TO_EMAIL e;
     CONTACT_FROM_EMAIL := CONTACT_FROM_EMAIL e;
     SMTP_HOST := SMTP_HOST e;
     SMTP_PORT := SMTP_PORT e;
     SMTP_SECURE := SMTP_SECURE e;
     SMTP_USER := SMTP_USER e;
     SMTP_PASS := SMTP_PASS e;
     ALLOWED_ORIGIN := v |}.






End Notions.

(** *** Example data *)

Definition env_ok : env :=
  {| PORT := None;
     CONTACT_TO_EMAIL := Some (js "owner@example.com");
     CONTACT_FROM_EMAIL := None;
     SMTP_HOST := Some (js "smtp.example.com");
     SMTP_PORT := Some (js "465");
     SMTP_SECURE := None;
     SMTP_USER := Some (js "mailer");
     SMTP_PASS := Some (js "secret");
     ALLOWED_ORIGIN := None |}.

Definition env_no_relay : env :=
  {| PORT := None;
     CONTACT_TO_EMAIL := Some (js "owner@example.com");
     CONTACT_FROM_EMAIL := None;
     SMTP_HOST := None;
     SMTP_PORT := None;
     SMTP_SECURE := None;
     SMTP_USER := Some (js "mailer");
     SMTP_PASS := Some (js "secret");
     ALLOWED_ORIGIN := None |}.

Definition env_no_recipient : env :=
  {| PORT := None;
     CONTACT_TO_EMAIL := None;
     CONTACT_FROM_EMAIL := None;
     SMTP_HOST := Some (js "smtp.example.com");
     SMTP_PORT := Some (js "465");
     SMTP_SECURE := None;
     SMTP_USER := Some (js "mailer");
     SMTP_PASS := Some (js "secret");
     ALLOWED_ORIGIN := None |}.

Definition relay_down : exn := Error (js "connect ECONNREFUSED").

Definition world_ok : world :=
  {| clock := fun _ => js "2024-01-01T00:00:00.000Z"; relay := fun _ _ => None |}.

Definition world_down : world :=
  {| clock := fun _ => js "2024-01-01T00:00:00.000Z";
     relay := fun _ _ => Some relay_down |}.

Definition submission (name email message : value) : request :=
  {| method := POST;
     path := js "/api/contact";
     origin := Some (js "https://caseclosed-ai.netlify.app");
     body_error := None;
     body := Obj [(js "name", name); (js "email", email); (js "message", message)];
     ip := Some (js "203.0.113.7");
     user_agent := None;
     arrival := 0 |}.

Definition req_jo : request :=
  submission (Str (js "Jo")) (Str (js "jo@example.com"))
    (Str (js "Hello, this is long enough.")).

Definition req_short_name : request :=
  submission (Str (js "A")) (Str (js "jo@example.com"))
    (Str (js "Hello, this is long enough.")).

Definition req_no_local_part : request :=
  submission (Str (js "Jo")) (Str (js "@a.b"))
    (Str (js "Hello, this is long enough.")).

(** The transport [createTransporter] builds in [env_ok]. *)
Definition transport_ok : transport :=
  {| host := js "smtp.example.com"; port := Some 465%Z; secure := true;
     auth_user := js "mailer"; auth_pass := js "secret" |}.

Definition name_jo : jsstring := js "Jo".
Definition email_jo : jsstring := js "jo@example.com".
Definition message_jo : jsstring := js "Hello, this is long enough.".

(** A text over two lines with white space around it. *)
Definition two_lines : jsstring :=
  js "  first" ++ [ch_cr; ch_lf; ch_lf] ++ js "second  ".

(** 3999 letters, a space and one more letter: the cut at 4000 leaves the
    space at the end. *)
Definition cut_after_space : jsstring := replicate 3999 97 ++ [ch_space; 98].

(** An object whose own [toString] property is not a function, as
    [JSON.parse] gives for a body such as [{ name: { toString: null } }]. *)
Definition own_toString : value := Obj [(js "toString", Null)].

(** A request without a body. *)
Definition req_no_body : request :=
  {| method := POST;
     path := js "/api/contact";
     origin := None;
     body_error := None;
     body := Undefined;
     ip := Some (js "203.0.113.7");
     user_agent := None;
     arrival := 0 |}.

(** The number zero. *)
Definition num_zero : value := @Num integer_numbers (Some 0%Z).

(** A submission whose name is the number zero. *)
Definition req_zero_name : request :=
  submission num_zero (Str (js "jo@example.com"))
    (Str (js "Hello, this is long enough.")).

(** A submission whose name is an object with an own [toString]. *)
Definition req_object_name : request :=
  submission own_toString (Str (js "jo@example.com"))
    (Str (js "Hello, this is long enough.")).

Definition req_health : request :=
  {| method := GET;
     path := js "/health";
     origin := None;
     body_error := None;
     body := Undefined;
     ip := Some (js "203.0.113.7");
     user_agent := None;
     arrival := 0 |}.

(** What [express.json] passes on for a body that is not JSON. *)
Definition parse_failure : exn := Error (js "Unexpected token } in JSON").


(** [GET /health] with a body that cannot be read. *)
Definition req_health_unparsed : request :=
  {| method := GET;
     path := js "/health";
     origin := None;
     body_error := Some parse_failure;
     body := Undefined;
     ip := Some (js "203.0.113.7");
     user_agent := None;
     arrival := 0 |}.


Definition two_origins : list jsstring :=
  [js "http://localhost:5500"; js "https://caseclosed-ai.netlify.app"].

(** *** Notions of the further properties *)

(** The characters [escapeHtml] replaces. *)
Definition needs_escape (c : N) : bool := (c =? ch_amp) || is_markup c.

(** A string [sanitize] has nothing to do on. *)
Definition clean (s : jsstring) : Prop :=
  no_crlf s /\ ~ starts_with is_space s /\ ~ ends_with is_space s
  /\ (length s <= 4000)%nat.

(** An entry of a comma-separated list that parsing leaves as it is: not
    empty, no white space at either end, no comma. *)
Definition list_entry (o : jsstring) : Prop :=
  o <> [] /\ ~ starts_with is_space o /\ ~ ends_with is_space o
  /\ (44 ∉ o).

(** The number of line feeds of a text. *)
Definition line_feeds (s : jsstring) : nat :=
  length (filter (fun c => c = ch_lf) s).

(** ** Facts about the string operations *)

Lemma is_crlf_space c : is_crlf c = true -> is_space c = true.
Proof.
  unfold is_crlf, is_space, ch_cr, ch_lf. intros Hc.
  apply orb_prop in Hc as [Hc | Hc]; apply N.eqb_eq in Hc; subst c; reflexivity.
Qed.

Lemma replace_crlf_from_no_crlf b s : no_crlf (replace_crlf_from b s).
Proof.
  revert b. induction s as [|c s IH]; intros b; simpl.
  - constructor.
  - destruct (is_crlf c) eqn:Hc.
    + destruct b; [apply IH | constructor; [reflexivity | apply IH]].
    + constructor; [assumption | apply IH].
Qed.

Lemma replace_crlf_from_id b s : no_crlf s -> replace_crlf_from b s = s.
Proof.
  intros Hs. revert b. induction Hs as [|c s Hc Hs IH]; intros b; simpl.
  - reflexivity.
  - rewrite Hc. f_equal. apply IH.
Qed.

Lemma replace_crlf_from_run b run s :
  Forall (fun c => is_crlf c = true) run -> run <> [] ->
  replace_crlf_from b (run ++ s)
  = (if b then [] else [ch_space]) ++ replace_crlf_from true s.
Proof.
  intros Hrun. revert b. induction Hrun as [|c run Hc Hrun IH]; intros b Hne.
  - congruence.
  - simpl. rewrite Hc. destruct run as [|d run].
    + simpl. destruct b; reflexivity.
    + rewrite IH by discriminate. destruct b; reflexivity.
Qed.

Lemma replace_crlf_from_true s :
  ~ starts_with is_crlf s -> replace_crlf_from true s = replace_crlf_from false s.
Proof.
  destruct s as [|c s]; simpl; [reflexivity|].
  intros Hc. destruct (is_crlf c); [exfalso; apply Hc; reflexivity | reflexivity].
Qed.

(** Every string splits into a run of line breaks and a rest that does not
    start with one. *)
Lemma crlf_run_split s :
  exists run rest, s = run ++ rest /\ Forall (fun c => is_crlf c = true) run
                   /\ ~ starts_with is_crlf rest.
Proof.
  induction s as [|c s (run & rest & -> & Hrun & Hrest)].
  - exists [], []. repeat split; [constructor | intros []].
  - destruct (is_crlf c) eqn:Hc.
    + exists (c :: run), rest. repeat split; [constructor; assumption | assumption].
    + exists [], (c :: run ++ rest). repeat split; [constructor|].
      simpl. rewrite Hc. discriminate.
Qed.

Lemma replace_crlf_collapsed_aux n s :
  (length s <= n)%nat -> ~ starts_with is_crlf s -> collapsed s (replace_crlf s).
Proof.
  unfold replace_crlf. revert s.
  induction n as [|n IH]; intros s Hlen Hstart.
  - destruct s; [constructor | simpl in Hlen; lia].
  - destruct s as [|c s]; [constructor|].
    simpl in Hstart. simpl. destruct (is_crlf c) eqn:Hc; [contradiction|].
    destruct (crlf_run_split s) as (run & rest & -> & Hrun & Hrest).
    simpl in Hlen. rewrite length_app in Hlen.
    apply collapsed_keep; [assumption|].
    destruct run as [|d run].
    + simpl. apply IH; [simpl in Hlen; lia | assumption].
    + rewrite replace_crlf_from_run by (assumption || discriminate).
      simpl. rewrite replace_crlf_from_true by assumption.
      apply (collapsed_run (d :: run) rest); [discriminate | assumption | assumption |].
      apply IH; [simpl in Hlen; lia | assumption].
Qed.

(** [replace_crlf] replaces every maximal run of line breaks by one space. *)
Lemma replace_crlf_collapsed s : collapsed s (replace_crlf s).
Proof.
  destruct (crlf_run_split s) as (run & rest & -> & Hrun & Hrest).
  destruct run as [|d run].
  - simpl. apply (replace_crlf_collapsed_aux (length rest)); [lia | assumption].
  - unfold replace_crlf.
    rewrite replace_crlf_from_run by (assumption || discriminate).
    simpl. rewrite replace_crlf_from_true by assumption.
    apply (collapsed_run (d :: run) rest); [discriminate | assumption | assumption |].
    apply (replace_crlf_collapsed_aux (length rest)); [lia | assumption].
Qed.

Lemma trimStart_split s : exists l, s = l ++ trimStart s /\ blank l.
Proof.
  induction s as [|c s (l & Hs & Hl)]; simpl.
  - exists []. split; [reflexivity | constructor].
  - destruct (is_space c) eqn:Hc.
    + exists (c :: l). split; [simpl; congruence | constructor; assumption].
    + exists []. split; [reflexivity | constructor].
Qed.

Lemma trimStart_start s : ~ starts_with is_space (trimStart s).
Proof.
  induction s as [|c s IH]; simpl; [intros [] |].
  destruct (is_space c) eqn:Hc; [assumption | simpl; congruence].
Qed.

Lemma trimStart_id s : ~ starts_with is_space s -> trimStart s = s.
Proof.
  destruct s as [|c s]; simpl; [reflexivity|].
  destruct (is_space c); [intros Hc; exfalso; apply Hc; reflexivity | reflexivity].
Qed.

Lemma trimEnd_split s : exists r, s = trimEnd s ++ r /\ blank r.
Proof.
  induction s as [|c s (r & Hs & Hr)]; simpl.
  - exists []. split; [reflexivity | constructor].
  - destruct (trimEnd s) as [|d t] eqn:Ht.
    + destruct (is_space c) eqn:Hc.
      * exists (c :: r). simpl in Hs. subst s. split; [reflexivity|].
        constructor; assumption.
      * exists r. simpl in *. subst s. split; [reflexivity | assumption].
    + exists r. split; [rewrite Hs; reflexivity | assumption].
Qed.

Lemma trimEnd_end s : ~ ends_with is_space (trimEnd s).
Proof.
  unfold ends_with. induction s as [|c s IH]; simpl; [intros [] |].
  destruct (trimEnd s) as [|d t] eqn:Ht.
  - destruct (is_space c) eqn:Hc; simpl; [intros [] | congruence].
  - rewrite last_cons_cons. assumption.
Qed.

Lemma trimEnd_id s : ~ ends_with is_space s -> trimEnd s = s.
Proof.
  unfold ends_with. induction s as [|c s IH]; simpl; [reflexivity|].
  destruct s as [|d s].
  - simpl. destruct (is_space c); [intros Hc; exfalso; apply Hc; reflexivity | reflexivity].
  - rewrite last_cons_cons. intros Hl. rewrite (IH Hl). reflexivity.
Qed.

Lemma trimEnd_start p s : ~ starts_with p s -> ~ starts_with p (trimEnd s).
Proof.
  destruct s as [|c s]; simpl; [tauto|].
  intros Hc. destruct (trimEnd s); [destruct (is_space c); simpl; tauto | assumption].
Qed.

Lemma take_start p n s : ~ starts_with p s -> ~ starts_with p (take n s).
Proof. destruct s, n; simpl; tauto. Qed.

(** [trim] removes the white space around a string and nothing else. *)
Lemma trim_trimmed s : trimmed s (trim s).
Proof.
  unfold trimmed, trim.
  destruct (trimStart_split s) as (l & Hl & Hbl).
  destruct (trimEnd_split (trimStart s)) as (r & Hr & Hbr).
  repeat split.
  - exists l, r. split; [congruence | split; assumption].
  - apply trimEnd_start, trimStart_start.
  - apply trimEnd_end.
Qed.

Lemma trimStart_no_crlf s : no_crlf s -> no_crlf (trimStart s).
Proof.
  induction 1 as [|c s Hc Hs IH]; simpl; [constructor|].
  destruct (is_space c); [assumption | constructor; assumption].
Qed.

Lemma trimEnd_no_crlf s : no_crlf s -> no_crlf (trimEnd s).
Proof.
  induction 1 as [|c s Hc Hs IH]; simpl; [constructor|].
  destruct (trimEnd s).
  - destruct (is_space c); constructor; [assumption | constructor].
  - constructor; assumption.
Qed.

Lemma sanitize_string_no_crlf s : no_crlf (sanitize_string s).
Proof.
  apply Forall_take, trimEnd_no_crlf, trimStart_no_crlf, replace_crlf_from_no_crlf.
Qed.

Lemma sanitize_string_length s : (length (sanitize_string s) <= 4000)%nat.
Proof. unfold sanitize_string, slice0. rewrite length_take. lia. Qed.

Lemma sanitize_string_start s : ~ starts_with is_space (sanitize_string s).
Proof. apply take_start, trimEnd_start, trimStart_start. Qed.

(** Sanitizing a sanitized string strips the white space that a cut may
    have left at its end, and nothing else. *)
Lemma sanitize_string_twice s :
  sanitize_string (sanitize_string s) = trimEnd (sanitize_string s).
Proof.
  unfold sanitize_string at 1. unfold replace_crlf.
  rewrite replace_crlf_from_id by apply sanitize_string_no_crlf.
  unfold trim. rewrite trimStart_id by apply sanitize_string_start.
  unfold slice0. apply take_ge.
  destruct (trimEnd_split (sanitize_string s)) as (r & Hr & _).
  pose proof (sanitize_string_length s) as Hlen.
  rewrite Hr, length_app in Hlen. lia.
Qed.

Lemma replaceAll_app c by_ s1 s2 :
  replaceAll c by_ (s1 ++ s2) = replaceAll c by_ s1 ++ replaceAll c by_ s2.
Proof.
  induction s1 as [|d s1 IH]; simpl; [reflexivity|].
  destruct (d =? c); rewrite IH; [apply app_assoc | reflexivity].
Qed.

Lemma escape_string_app s1 s2 :
  escape_string (s1 ++ s2) = escape_string s1 ++ escape_string s2.
Proof. unfold escape_string. now rewrite !replaceAll_app. Qed.

Lemma escape_string_char c : escape_string [c] = escape_char c.
Proof.
  unfold escape_string, escape_char, ch_amp, ch_lt, ch_gt, ch_dquote, ch_squote.
  destruct (c =? 38) eqn:H1; [apply N.eqb_eq in H1; subst c; reflexivity|].
  destruct (c =? 60) eqn:H2; [apply N.eqb_eq in H2; subst c; reflexivity|].
  destruct (c =? 62) eqn:H3; [apply N.eqb_eq in H3; subst c; reflexivity|].
  destruct (c =? 34) eqn:H4; [apply N.eqb_eq in H4; subst c; reflexivity|].
  destruct (c =? 39) eqn:H5; [apply N.eqb_eq in H5; subst c; reflexivity|].
  simpl. rewrite H1. simpl. rewrite H2. simpl. rewrite H3. simpl. rewrite H4.
  simpl. rewrite H5. reflexivity.
Qed.

(** The five replacements, in their order, put each character's entity in
    its place: an ampersand that a later replacement writes is not escaped
    again. *)
Lemma escape_string_escaped s : escape_string s = escaped s.
Proof.
  induction s as [|c s IH]; [reflexivity|].
  change (c :: s) with ([c] ++ s).
  rewrite escape_string_app, escape_string_char, IH. reflexivity.
Qed.

Lemma escape_char_no_markup c : Forall (fun d => is_markup d = false) (escape_char c).
Proof.
  unfold escape_char, ch_amp, ch_lt, ch_gt, ch_dquote, ch_squote.
  destruct (c =? 38) eqn:H1; [repeat constructor|].
  destruct (c =? 60) eqn:H2; [repeat constructor|].
  destruct (c =? 62) eqn:H3; [repeat constructor|].
  destruct (c =? 34) eqn:H4; [repeat constructor|].
  destruct (c =? 39) eqn:H5; [repeat constructor|].
  constructor; [|constructor].
  unfold is_markup, ch_lt, ch_gt, ch_dquote, ch_squote.
  rewrite H2, H3, H4, H5. reflexivity.
Qed.

Lemma escaped_no_markup s : Forall (fun d => is_markup d = false) (escaped s).
Proof.
  induction s as [|c s IH]; simpl; [constructor|].
  apply Forall_app. split; [apply escape_char_no_markup | assumption].
Qed.

(** ** Matching by derivatives decides the language of a pattern *)

Lemma Matches_Seq_inv r1 r2 s :
  Matches (Seq r1 r2) s ->
  exists s1 s2, s = s1 ++ s2 /\ Matches r1 s1 /\ Matches r2 s2.
Proof. inversion 1; subst; eauto. Qed.

Lemma Matches_Alt_inv r1 r2 s :
  Matches (Alt r1 r2) s -> Matches r1 s \/ Matches r2 s.
Proof. inversion 1; subst; auto. Qed.

Lemma Matches_Class_inv p s :
  Matches (Class p) s -> exists c, s = [c] /\ p c = true.
Proof. inversion 1; subst; eauto. Qed.

(** A non-empty match of a starred pattern starts with a non-empty match of
    the pattern. *)
Lemma Matches_Star_cons r c s :
  Matches (Star r) (c :: s) ->
  exists s1 s2, s = s1 ++ s2 /\ Matches r (c :: s1) /\ Matches (Star r) s2.
Proof.
  assert (Hgen : forall r' s', Matches r' s' -> forall c s,
             r' = Star r -> s' = c :: s ->
             exists s1 s2, s = s1 ++ s2 /\ Matches r (c :: s1)
                           /\ Matches (Star r) s2).
  { clear c s. induction 1 as [| | | | | |r0 s1 s2 H1 _ H2 IH2];
      intros x t Hr Ht; try discriminate.
    injection Hr as ->. destruct s1 as [|d s1]; simpl in Ht.
    - apply IH2; [reflexivity | assumption].
    - injection Ht as Hd Ht. subst x t. eauto. }
  intros Hm. apply (Hgen _ _ Hm); reflexivity.
Qed.

Lemma nullable_Matches r : nullable r = true <-> Matches r [].
Proof.
  induction r as [| |p|r1 IH1 r2 IH2|r1 IH1 r2 IH2|r IH]; simpl.
  - split; [discriminate | inversion 1].
  - split; [constructor | reflexivity].
  - split; [discriminate | inversion 1].
  - rewrite andb_true_iff, IH1, IH2. split.
    + intros [H1 H2]. apply (M_Seq r1 r2 [] []); assumption.
    + intros Hm. apply Matches_Seq_inv in Hm as (s1 & s2 & Hs & H1 & H2).
      symmetry in Hs. apply app_eq_nil in Hs as [-> ->]. auto.
  - rewrite orb_true_iff, IH1, IH2. split.
    + intros [H1 | H2]; [apply M_AltL | apply M_AltR]; assumption.
    + apply Matches_Alt_inv.
  - split; [constructor | reflexivity].
Qed.

Lemma deriv_Matches r : forall c s, Matches (deriv c r) s <-> Matches r (c :: s).
Proof.
  induction r as [| |p|r1 IH1 r2 IH2|r1 IH1 r2 IH2|r IH]; intros c s; simpl.
  - split; inversion 1.
  - split; inversion 1.
  - destruct (p c) eqn:Hp; split; intros Hm.
    + inversion Hm; subst. constructor. assumption.
    + inversion Hm; subst. constructor.
    + inversion Hm.
    + inversion Hm; subst. congruence.
  - assert (Hseq : Matches (Seq (deriv c r1) r2) s ->
                   Matches (Seq r1 r2) (c :: s)).
    { intros Hm. apply Matches_Seq_inv in Hm as (s1 & s2 & -> & H1 & H2).
      apply IH1 in H1. apply (M_Seq r1 r2 (c :: s1) s2); assumption. }
    assert (Hback : Matches (Seq r1 r2) (c :: s) ->
                    Matches (Seq (deriv c r1) r2) s
                    \/ (Matches r1 [] /\ Matches r2 (c :: s))).
    { intros Hm. apply Matches_Seq_inv in Hm as (s1 & s2 & Hs & H1 & H2).
      destruct s1 as [|d s1]; simpl in Hs.
      - subst s2. right. auto.
      - injection Hs as <- ->. left. apply M_Seq; [apply IH1|]; assumption. }
    destruct (nullable r1) eqn:Hn.
    + split.
      * intros Hm. apply Matches_Alt_inv in Hm as [Hm | Hm]; [auto|].
        apply IH2 in Hm. apply nullable_Matches in Hn.
        apply (M_Seq r1 r2 [] (c :: s)); assumption.
      * intros Hm. destruct (Hback Hm) as [Hl | [_ Hr]].
        -- apply M_AltL. assumption.
        -- apply M_AltR, IH2. assumption.
    + split; [assumption|].
      intros Hm. destruct (Hback Hm) as [Hl | [Hr _]]; [assumption|].
      apply nullable_Matches in Hr. congruence.
  - split; intros Hm.
    + apply Matches_Alt_inv in Hm as [Hm | Hm];
        [apply M_AltL, IH1 | apply M_AltR, IH2]; assumption.
    + apply Matches_Alt_inv in Hm as [Hm | Hm];
        [apply M_AltL, IH1 | apply M_AltR, IH2]; assumption.
  - split; intros Hm.
    + apply Matches_Seq_inv in Hm as (s1 & s2 & -> & H1 & H2).
      apply IH in H1. apply (M_StarCons r (c :: s1) s2); assumption.
    + apply Matches_Star_cons in Hm as (s1 & s2 & -> & H1 & H2).
      apply M_Seq; [apply IH|]; assumption.
Qed.

Lemma test_whole_Matches s : forall r, test_whole r s = true <-> Matches r s.
Proof.
  induction s as [|c s IH]; intros r; simpl.
  - apply nullable_Matches.
  - rewrite IH. apply deriv_Matches.
Qed.

Lemma Matches_Lit c s : Matches (Lit c) s <-> s = [c].
Proof.
  unfold Lit. split.
  - intros Hm. apply Matches_Class_inv in Hm as (d & -> & Hd).
    apply N.eqb_eq in Hd. congruence.
  - intros ->. constructor. apply N.eqb_refl.
Qed.

Lemma Matches_Star_Class p s : Matches (Star (Class p)) s <-> Forall (fun c => p c = true) s.
Proof.
  split.
  - revert p. induction s as [|c s IH]; intros p Hm; [constructor|].
    apply Matches_Star_cons in Hm as (s1 & s2 & -> & H1 & H2).
    apply Matches_Class_inv in H1 as (d & Hd & Hp).
    injection Hd as Hc Hs1. subst c s1. simpl.
    constructor; [assumption | apply IH, H2].
  - induction 1 as [|c s Hc Hs IH]; [constructor|].
    apply (M_StarCons (Class p) [c] s); [constructor|]; assumption.
Qed.

Lemma Matches_Plus_Class p s :
  Matches (Plus (Class p)) s <-> s <> [] /\ Forall (fun c => p c = true) s.
Proof.
  unfold Plus. split.
  - intros Hm. apply Matches_Seq_inv in Hm as (s1 & s2 & -> & H1 & H2).
    apply Matches_Class_inv in H1 as (c & -> & Hc).
    apply Matches_Star_Class in H2. split; [discriminate | constructor; assumption].
  - intros [Hne Hall]. destruct Hall as [|c s Hc Hs]; [congruence|].
    apply (M_Seq (Class p) (Star (Class p)) [c] s);
      [constructor; assumption | apply Matches_Star_Class; assumption].
Qed.

Lemma Matches_Word w s : Matches (Word w) s <-> s = w.
Proof.
  revert s. induction w as [|c w IH]; intros s; simpl.
  - split; [inversion 1; reflexivity | intros ->; constructor].
  - split.
    + intros Hm. apply Matches_Seq_inv in Hm as (s1 & s2 & -> & H1 & H2).
      apply Matches_Lit in H1 as ->. apply IH in H2 as ->. reflexivity.
    + intros ->. apply (M_Seq (Lit c) (Word w) [c] w);
        [apply Matches_Lit | apply IH]; reflexivity.
Qed.

(** [/w$/] holds of the strings that end with the word [w]. *)
Lemma test_suffix_Word w s : test_suffix (Word w) s = true <-> w `suffix_of` s.
Proof.
  unfold test_suffix. rewrite test_whole_Matches. split.
  - intros Hm. apply Matches_Seq_inv in Hm as (s1 & s2 & -> & _ & H2).
    apply Matches_Word in H2 as ->. exists s1. reflexivity.
  - intros [k ->]. apply M_Seq; [|apply Matches_Word; reflexivity].
    apply Matches_Star_Class. apply Forall_forall. reflexivity.
Qed.

(** ** The pattern of [isEmail] *)

Lemma not_space_at_spec c :
  not_space_at c = true <-> is_space c = false /\ c <> ch_at.
Proof.
  unfold not_space_at. rewrite negb_true_iff, orb_false_iff, N.eqb_neq. tauto.
Qed.

Lemma Forall_not_space_at s :
  Forall (fun c => not_space_at c = true) s
  <-> Forall (fun c => is_space c = false) s /\ (ch_at ∉ s).
Proof.
  induction s as [|c s IH].
  - split; [intros _; split; [constructor | apply not_elem_of_nil] | constructor].
  - rewrite !Forall_cons, IH, not_elem_of_cons, not_space_at_spec.
    split; [intros [[? ?] [? ?]] | intros [[? ?] [? ?]]]; repeat split; auto.
Qed.

Lemma email_regex_shaped t : Matches email_regex t <-> email_shaped t.
Proof.
  unfold email_regex, email_shaped. split.
  - intros Hm.
    apply Matches_Seq_inv in Hm as (l & t1 & -> & Hl & Hm).
    apply Matches_Seq_inv in Hm as (at_ & t2 & -> & Hat & Hm).
    apply Matches_Seq_inv in Hm as (x & t3 & -> & Hx & Hm).
    apply Matches_Seq_inv in Hm as (dot & y & -> & Hdot & Hy).
    apply Matches_Lit in Hat as ->. apply Matches_Lit in Hdot as ->.
    apply Matches_Plus_Class in Hl as [Hl0 Hl], Hx as [Hx0 Hx], Hy as [Hy0 Hy].
    apply Forall_not_space_at in Hl as [Hls Hla], Hx as [Hxs Hxa], Hy as [Hys Hya].
    exists l, (x ++ ch_dot :: y). repeat split; try assumption.
    + rewrite not_elem_of_app, not_elem_of_cons. repeat split; try assumption.
      discriminate.
    + apply Forall_app; split; [assumption|].
      apply Forall_cons; split; [reflexivity|].
      apply Forall_app; split; [assumption|].
      apply Forall_cons; split; [reflexivity | assumption].
    + exists x, y. repeat split; assumption.
  - intros (l & d & -> & Hl0 & Hla & Hda & Hs & x & y & -> & Hx0 & Hy0).
    apply not_elem_of_app in Hda as [Hxa Hya].
    apply not_elem_of_cons in Hya as [_ Hya].
    apply Forall_app in Hs as [Hls Hs]. apply Forall_cons in Hs as [_ Hs].
    apply Forall_app in Hs as [Hxs Hs]. apply Forall_cons in Hs as [_ Hys].
    apply M_Seq; [apply Matches_Plus_Class; split;
                    [assumption | apply Forall_not_space_at; split; assumption]|].
    apply (M_Seq _ _ [ch_at]); [apply Matches_Lit; reflexivity|].
    apply M_Seq; [apply Matches_Plus_Class; split;
                    [assumption | apply Forall_not_space_at; split; assumption]|].
    apply (M_Seq _ _ [ch_dot]); [apply Matches_Lit; reflexivity|].
    apply Matches_Plus_Class; split;
      [assumption | apply Forall_not_space_at; split; assumption].
Qed.

Lemma test_email_regex t : test_whole email_regex t = true <-> email_shaped t.
Proof. rewrite test_whole_Matches. apply email_regex_shaped. Qed.

(** ** Properties of the helpers and of the handler *)

Section Properties.
Context `{JsNumber}.

Lemma ToString_or_else_Str s : ToString (or_else (Str s) (Str [])) = Ok s.
Proof. unfold or_else. simpl. destruct s; reflexivity. Qed.

(** Coercion throws on objects only. *)
Lemma primitive_coerces v :
  primitive v -> exists s, ToString (or_else v (Str [])) = Ok s.
Proof.
  unfold or_else.
  destruct v as [| |[|]|n|s| |]; simpl; try contradiction; intros _; eauto.
  - destruct (number_truthy n); simpl; eauto.
  - destruct s; simpl; eauto.
Qed.

Lemma sanitize_Str s : sanitize (Str s) = Ok (sanitize_string s).
Proof. unfold sanitize. rewrite ToString_or_else_Str. reflexivity. Qed.

Lemma escapeHtml_Str s : escapeHtml (Str s) = Ok (escaped s).
Proof.
  unfold escapeHtml. rewrite ToString_or_else_Str. simpl.
  f_equal. apply escape_string_escaped.
Qed.

Lemma escapeHtml_value_of x :
  escapeHtml (value_of x) = Ok (escaped (text_or_empty x)).
Proof. destruct x as [s|]; [apply escapeHtml_Str | reflexivity]. Qed.

Lemma isEmail_Str s : isEmail (Str s) = Ok (test_whole email_regex (trim s)).
Proof. unfold isEmail. rewrite ToString_or_else_Str. reflexivity. Qed.

(** C3 (as amended). For every input value whose coercion to a string
    succeeds, [sanitize] returns a string: the coerced text with every
    maximal run of carriage returns and line feeds collapsed to one space,
    then trimmed of leading and trailing white space, then cut to its first
    4000 code units. The result holds no carriage return or line feed, has
    at most 4000 code units, and exactly 4000 when the collapsed and trimmed
    text is longer than that. An absent input gives the empty string. *)
Theorem sanitize_collapses_trims_cuts (v : value) (s : jsstring) :
  ToString (or_else v (Str [])) = Ok s ->
  exists c t r,
    sanitize v = Ok r
    /\ collapsed s c /\ trimmed c t /\ r = take 4000 t
    /\ no_crlf r
    /\ (length r <= 4000)%nat
    /\ ((4000 < length t)%nat -> length r = 4000%nat)
    /\ (v = Undefined -> r = []).
Proof.
  intros Hs.
  exists (replace_crlf s), (trim (replace_crlf s)), (sanitize_string s).
  split; [unfold sanitize; rewrite Hs; reflexivity|].
  split; [apply replace_crlf_collapsed|].
  split; [apply trim_trimmed|].
  split; [reflexivity|].
  split; [apply sanitize_string_no_crlf|].
  split; [apply sanitize_string_length|].
  split.
  - intros Hlen. unfold sanitize_string, slice0. rewrite length_take. lia.
  - intros ->. injection Hs as <-. reflexivity.
Qed.

(** C5 (as amended). Sanitizing a sanitized string removes the white space
    at its end and changes nothing else; it is a no-op exactly when the
    sanitized string does not end in white space, which is the case whenever
    the collapsed and trimmed input has at most 4000 code units. *)
Theorem sanitize_twice (s r : jsstring) :
  sanitize (Str s) = Ok r ->
  sanitize (Str r) = Ok (trimEnd r)
  /\ (sanitize (Str r) = Ok r <-> ~ ends_with is_space r)
  /\ ((length (trim (replace_crlf s)) <= 4000)%nat -> sanitize (Str r) = Ok r).
Proof.
  rewrite sanitize_Str. intros Hr. injection Hr as <-.
  rewrite sanitize_Str, sanitize_string_twice.
  split; [reflexivity|]. split.
  - split.
    + intros Heq. injection Heq as Heq. rewrite <- Heq. apply trimEnd_end.
    + intros Hend. rewrite trimEnd_id by assumption. reflexivity.
  - intros Hlen. f_equal. apply trimEnd_id.
    unfold sanitize_string, slice0. rewrite take_ge by assumption.
    apply trimEnd_end.
Qed.

(** C10 (as amended). For every input value whose coercion to a string
    succeeds, [escapeHtml] returns the coerced text with each ampersand,
    angle bracket, double quote and single quote replaced by its entity
    ([&amp;], [&lt;], [&gt;], [&quot;], [&#039;]), so the result holds none
    of the angle brackets and quotes. An absent input gives the empty
    string. *)
Theorem escapeHtml_replaces_markup (v : value) (s : jsstring) :
  ToString (or_else v (Str [])) = Ok s ->
  exists r,
    escapeHtml v = Ok r
    /\ r = escaped s
    /\ Forall (fun d => is_markup d = false) r
    /\ (v = Undefined -> r = []).
Proof.
  intros Hs. exists (escaped s).
  split; [unfold escapeHtml; rewrite Hs; simpl; f_equal;
          apply escape_string_escaped|].
  split; [reflexivity|].
  split; [apply escaped_no_markup|].
  intros ->. injection Hs as <-. reflexivity.
Qed.

Lemma falsy_or_short s k :
  (0 < k)%nat ->
  negb (truthy (Some s)) || (length s <? k)%nat = (length s <? k)%nat.
Proof.
  intros Hk. destruct s; simpl; [|reflexivity].
  symmetry. apply Nat.ltb_lt. assumption.
Qed.

Lemma value_of_or_unknown ua :
  value_of (or_str ua (Some (js "unknown")))
  = Str (show (or_str ua (Some (js "unknown")))).
Proof. unfold or_str. destruct ua as [[|c s]|]; reflexivity. Qed.

(** The handler on a request whose fields sanitize: the checks in their
    order, then the transport. *)
Lemma contact_handler_run e w req n em m :
  sanitized_fields req n em m ->
  handle_contact e w req =
    if (length n <? 2)%nat then (Ok (json_error 400 name_error), [])
    else if negb (test_whole email_regex (trim em))
    then (Ok (json_error 400 email_error), [])
    else if (length m <? 10)%nat then (Ok (json_error 400 message_error), [])
    else if negb (truthy (CONTACT_TO_EMAIL e))
    then (Ok (json_error 500 recipient_error), [])
    else match createTransporter e with
         | Throw err => (Ok (json_error 500 send_error), [ConsoleError err])
         | Ok t =>
             let sent := expected_mail e w req n em m in
             match relay w t sent with
             | None => (Ok json_ok, [SendMail t sent])
             | Some err =>
                 (Ok (json_error 500 send_error),
                  [SendMail t sent; ConsoleError err])
             end
         end.
Proof.
  intros (Hn & He & Hm).
  unfold handle_contact, contact_handler, try_catch, mbind, lift.
  rewrite Hn, He, Hm.
  rewrite !escapeHtml_Str, escapeHtml_value_of, value_of_or_unknown,
    escapeHtml_Str, isEmail_Str.
  rewrite !falsy_or_short by lia.
  destruct (length n <? 2)%nat; [reflexivity|].
  assert (Hem : (if negb (truthy (Some em)) then ret true
                 else fun st0 : hstate =>
                        ret (negb (test_whole email_regex (trim em))) st0)
                = ret (negb (test_whole email_regex (trim em)))).
  { destruct em; reflexivity. }
  rewrite Hem. unfold ret at 1.
  destruct (test_whole email_regex (trim em)); simpl; [|reflexivity].
  destruct (length m <? 10)%nat; [reflexivity|].
  destruct (truthy (CONTACT_TO_EMAIL e)); simpl; [|reflexivity].
  destruct (createTransporter e) as [t|err]; [|reflexivity].
  unfold sendMail, now_iso. simpl.
  fold (expected_mail e w req n em m).
  destruct (relay w t (expected_mail e w req n em m)); reflexivity.
Qed.

Lemma valid_fields_checks n em m :
  valid_fields n em m ->
  (length n <? 2)%nat = false /\ test_whole email_regex (trim em) = true
  /\ (length m <? 10)%nat = false.
Proof.
  intros (Hn & He & Hm). rewrite isEmail_Str in He. injection He as He.
  repeat split; [apply Nat.ltb_ge | | apply Nat.ltb_ge]; assumption.
Qed.

Lemma createTransporter_missing e :
  ~ relay_configured e -> createTransporter e = Throw (Error missing_smtp).
Proof.
  unfold relay_configured, createTransporter. intros Hmiss.
  destruct (truthy (SMTP_HOST e)), (truthy (SMTP_USER e)),
    (truthy (SMTP_PASS e)); simpl; try reflexivity.
  exfalso. apply Hmiss. repeat split.
Qed.

Lemma createTransporter_configured e :
  relay_configured e -> exists t, createTransporter e = Ok t.
Proof.
  unfold relay_configured, createTransporter. intros (-> & -> & ->).
  simpl. eauto.
Qed.

Lemma error_messages_differ :
  name_error <> email_error /\ email_error <> message_error
  /\ name_error <> message_error.
Proof. repeat split; intros Heq; vm_compute in Heq; discriminate. Qed.

(** C1 (as amended). For every submission whose sanitized name, email and
    message pass the validator, with the recipient address set, the relay
    host and credentials set so that the transport is built, and the relay
    taking the mail: the handler answers 200 with [{ok: true}] and sends
    exactly one mail, whose HTML body is built from the escaped fields,
    whose text body is built from the fields as they are, and whose
    reply-to address is the sanitized email. *)
Theorem valid_submission_is_sent e w req n em m t :
  sanitized_fields req n em m ->
  valid_fields n em m ->
  truthy (CONTACT_TO_EMAIL e) = true ->
  createTransporter e = Ok t ->
  relay w t (expected_mail e w req n em m) = None ->
  exists sent,
    handle_contact e w req = (Ok json_ok, [SendMail t sent])
    /\ html sent = html_of (escaped n) (escaped em) (escaped m) (clock w 1)
                     (escaped (text_or_empty (ip req)))
                     (escaped (show (or_str (user_agent req)
                                       (Some (js "unknown")))))
    /\ text sent = text_of n em m (clock w 0) (ip req) (user_agent req)
    /\ replyTo sent = em
    /\ mail_to sent = CONTACT_TO_EMAIL e.
Proof.
  intros Hs Hv Hto Ht Hrelay. exists (expected_mail e w req n em m).
  rewrite (contact_handler_run e w req n em m Hs).
  destruct (valid_fields_checks n em m Hv) as (-> & -> & ->).
  rewrite Hto, Ht. simpl. rewrite Hrelay. repeat split.
Qed.

(** C2. The validator checks the sanitized fields in the order name, email,
    message, and the first rule that fails decides: the handler answers 400
    with that rule's message whatever the later fields are, the three
    messages differ, and nothing is sent or logged. *)
Theorem first_failing_rule_wins e w req n em m :
  sanitized_fields req n em m ->
  ((length n < 2)%nat ->
     handle_contact e w req = (Ok (json_error 400 name_error), []))
  /\ ((2 <= length n)%nat -> isEmail (Str em) = Ok false ->
        handle_contact e w req = (Ok (json_error 400 email_error), []))
  /\ ((2 <= length n)%nat -> isEmail (Str em) = Ok true ->
        (length m < 10)%nat ->
        handle_contact e w req = (Ok (json_error 400 message_error), []))
  /\ name_error <> email_error /\ email_error <> message_error
  /\ name_error <> message_error.
Proof.
  intros Hs. rewrite (contact_handler_run e w req n em m Hs).
  rewrite isEmail_Str.
  split; [|split; [|split; [|apply error_messages_differ]]].
  - intros Hn. apply Nat.ltb_lt in Hn. rewrite Hn. reflexivity.
  - intros Hn He. apply Nat.ltb_ge in Hn. injection He as He.
    rewrite Hn, He. reflexivity.
  - intros Hn He Hm. apply Nat.ltb_ge in Hn. apply Nat.ltb_lt in Hm.
    injection He as He. rewrite Hn, He, Hm. reflexivity.
Qed.

(** C4 (as amended). [isEmail] accepts a sanitized email exactly when,
    trimmed, it has one [@] with a non-empty local part before it, no white
    space, and after the [@] a dot that is neither the first nor the last
    character; when the name passes its rule, an email of any other shape
    (the empty one included) is answered 400 with the email message, and an
    email of that shape is not. *)
Theorem isEmail_accepts_shape e w req n em m :
  sanitized_fields req n em m ->
  (2 <= length n)%nat ->
  (isEmail (Str em) = Ok true <-> email_shaped (trim em))
  /\ (~ email_shaped (trim em) ->
        handle_contact e w req = (Ok (json_error 400 email_error), []))
  /\ (email_shaped (trim em) ->
        (handle_contact e w req).1 <> Ok (json_error 400 email_error)).
Proof.
  intros Hs Hn. apply Nat.ltb_ge in Hn.
  rewrite (contact_handler_run e w req n em m Hs), Hn, isEmail_Str.
  split; [|split].
  - rewrite <- test_email_regex. split; [intros Heq; injection Heq; auto | congruence].
  - intros Hshape. rewrite <- test_email_regex in Hshape.
    destruct (test_whole email_regex (trim em)); [congruence | reflexivity].
  - intros Hshape. apply test_email_regex in Hshape. rewrite Hshape. simpl.
    destruct error_messages_differ as (_ & Hem & _).
    destruct (length m <? 10)%nat; simpl.
    { intros Heq. injection Heq as Heq. congruence. }
    destruct (truthy (CONTACT_TO_EMAIL e)); simpl; [|discriminate].
    destruct (createTransporter e) as [t|err]; [|discriminate].
    simpl. destruct (relay w t _); discriminate.
Qed.

(** C6 (as amended). For every request with valid fields: when the
    recipient address is unset the handler answers 500 with the message
    [Server not configured: CONTACT_TO_EMAIL missing.], sends nothing and
    logs nothing; when the recipient is set but the relay host or a
    credential is missing it answers 500 with the generic
    [Failed to send message.], logs the construction error and sends
    nothing. *)
Theorem configuration_errors e w req n em m :
  sanitized_fields req n em m ->
  valid_fields n em m ->
  (truthy (CONTACT_TO_EMAIL e) = false ->
     handle_contact e w req = (Ok (json_error 500 recipient_error), []))
  /\ (truthy (CONTACT_TO_EMAIL e) = true -> ~ relay_configured e ->
        handle_contact e w req
        = (Ok (json_error 500 send_error), [ConsoleError (Error missing_smtp)])).
Proof.
  intros Hs Hv. rewrite (contact_handler_run e w req n em m Hs).
  destruct (valid_fields_checks n em m Hv) as (-> & -> & ->). simpl.
  split.
  - intros ->. reflexivity.
  - intros -> Hmiss. rewrite (createTransporter_missing e Hmiss). reflexivity.
Qed.

(** C7. For every request with valid fields, the recipient set and the
    transport built, when the relay refuses the mail the handler answers 500
    with the generic [Failed to send message.]: the answer does not depend
    on the error, the error is logged, and the mail was handed to the
    transport once. *)
Theorem delivery_failure_is_generic e w req n em m t err :
  sanitized_fields req n em m ->
  valid_fields n em m ->
  truthy (CONTACT_TO_EMAIL e) = true ->
  createTransporter e = Ok t ->
  relay w t (expected_mail e w req n em m) = Some err ->
  handle_contact e w req
  = (Ok (json_error 500 send_error),
     [SendMail t (expected_mail e w req n em m); ConsoleError err]).
Proof.
  intros Hs Hv Hto Ht Hrelay.
  rewrite (contact_handler_run e w req n em m Hs).
  destruct (valid_fields_checks n em m Hv) as (-> & -> & ->).
  rewrite Hto, Ht. simpl. rewrite Hrelay. reflexivity.
Qed.

(** *** Origins *)

Lemma undefined_not_netlify :
  test_suffix (Word (js ".netlify.app")) (js "undefined") = false.
Proof. vm_compute. reflexivity. Qed.

Lemma origin_allowed_iff e o :
  isOriginAllowed o (cors_origin (startup e)) = true
  <-> exists s, o = Some s
                /\ (js ".netlify.app" `suffix_of` s
                    \/ s = js "http://localhost:5500"
                    \/ s = js "http://127.0.0.1:5500").
Proof.
  unfold isOriginAllowed, startup, cors_origin, existsb.
  rewrite !orb_true_iff, !bool_decide_eq_true. unfold show.
  destruct o as [s|].
  - rewrite test_suffix_Word. split.
    + intros [Hs | [Hs | [Hs | Hs]]]; [| | |discriminate];
        exists s; split; try reflexivity; [tauto | right; left | right; right];
        congruence.
    + intros (s' & Hs' & Hcase). injection Hs' as <-.
      destruct Hcase as [Hs | [-> | ->]]; auto.
  - rewrite undefined_not_netlify. split.
    + intros [Hs | [Hs | [Hs | Hs]]]; discriminate.
    + intros (s & Hs & _). discriminate.
Qed.

(** C9. The origin test of [cors] does not read [ALLOWED_ORIGIN]: whatever
    value the variable has, [cors] is given the same [origin] option, the
    same origins are allowed (those that end in
    [.netlify.app], [http://localhost:5500] and [http://127.0.0.1:5500]),
    the same [Access-Control-Allow-Origin] header is given, and every
    request is served the same way. *)
Theorem cors_ignores_ALLOWED_ORIGIN (e : env) (v : option jsstring) :
  cors_origin (startup (with_ALLOWED_ORIGIN v e)) = cors_origin (startup e)
  /\ (forall o, isOriginAllowed o (cors_origin (startup (with_ALLOWED_ORIGIN v e)))
             = isOriginAllowed o (cors_origin (startup e)))
  /\ (forall o, allow_origin_header (startup (with_ALLOWED_ORIGIN v e)) o
                = allow_origin_header (startup e) o)
  /\ (forall w store req,
        serve (with_ALLOWED_ORIGIN v e) w store req = serve e w store req)
  /\ (forall o, isOriginAllowed o (cors_origin (startup e)) = true
                <-> exists s, o = Some s
                              /\ (js ".netlify.app" `suffix_of` s
                                  \/ s = js "http://localhost:5500"
                                  \/ s = js "http://127.0.0.1:5500")).
Proof.
  split; [reflexivity|].
  split; [reflexivity|]. split; [reflexivity|]. split; [reflexivity|].
  apply origin_allowed_iff.
Qed.

(** *** The limiter in front of the handler *)





(** A request whose body cannot be read goes to the final error middleware
    and to nothing else. *)
Lemma serve_unparsed (e : env) (w : world)
    (store : gmap (option jsstring) (nat * N)) (req : request) (err : exn) :
  body_error req = Some err ->
  serve e w store req = (server_error, [ConsoleError err], store).
Proof. intros Herr. unfold serve. rewrite Herr. reflexivity. Qed.









End Properties.

(** ** The properties at concrete inputs *)

(** The example of the specification: Jo's submission is sent, with replies
    going to Jo. *)
Lemma valid_submission_is_sent_witness :
  sanitized_fields req_jo name_jo email_jo message_jo
  /\ valid_fields name_jo email_jo message_jo
  /\ exists sent,
       handle_contact env_ok world_ok req_jo
       = (Ok json_ok, [SendMail transport_ok sent])
       /\ replyTo sent = email_jo.
Proof.
  assert (Hs : sanitized_fields req_jo name_jo email_jo message_jo)
    by (repeat split).
  assert (Hv : valid_fields name_jo email_jo message_jo)
    by (repeat split; vm_compute; lia).
  split; [exact Hs|]. split; [exact Hv|].
  destruct (valid_submission_is_sent env_ok world_ok req_jo
              name_jo email_jo message_jo transport_ok Hs Hv
              eq_refl eq_refl eq_refl)
    as (sent & Hrun & _ & _ & Hreply & _).
  exists sent. split; assumption.
Defined.

(** With the recipient set but no relay host, or with a relay that refuses
    the mail, a valid submission is answered 500. *)
Lemma valid_submission_not_sent :
  sanitized_fields req_jo name_jo email_jo message_jo
  /\ valid_fields name_jo email_jo message_jo
  /\ truthy (CONTACT_TO_EMAIL env_no_relay) = true
  /\ handle_contact env_no_relay world_ok req_jo
     = (Ok (json_error 500 send_error), [ConsoleError (Error missing_smtp)])
  /\ truthy (CONTACT_TO_EMAIL env_ok) = true
  /\ handle_contact env_ok world_down req_jo
     = (Ok (json_error 500 send_error),
        [SendMail transport_ok
           (expected_mail env_ok world_down req_jo name_jo email_jo message_jo);
         ConsoleError relay_down]).
Proof.
  split; [repeat split|]. split; [repeat split; vm_compute; lia|].
  repeat split; vm_compute; reflexivity.
Qed.

Lemma first_failing_rule_wins_witness :
  sanitized_fields req_short_name (js "A") email_jo message_jo
  /\ handle_contact env_ok world_ok req_short_name
     = (Ok (json_error 400 name_error), []).
Proof.
  assert (Hs : sanitized_fields req_short_name (js "A") email_jo message_jo)
    by (repeat split).
  split; [exact Hs|].
  destruct (first_failing_rule_wins env_ok world_ok req_short_name
              (js "A") email_jo message_jo Hs) as (Hname & _).
  apply Hname. vm_compute. lia.
Defined.

Lemma sanitize_collapses_trims_cuts_witness :
  ToString (or_else (Str two_lines) (Str [])) = Ok two_lines
  /\ exists c t r,
       sanitize (Str two_lines) = Ok r
       /\ collapsed two_lines c /\ trimmed c t /\ r = take 4000 t
       /\ no_crlf r
       /\ (length r <= 4000)%nat
       /\ ((4000 < length t)%nat -> length r = 4000%nat)
       /\ (Str two_lines = Undefined -> r = []).
Proof.
  split; [reflexivity|].
  apply (sanitize_collapses_trims_cuts (Str two_lines) two_lines).
  reflexivity.
Defined.

(** A field of 4001 spaces is longer than 4000 and sanitizes to the empty
    string; an object with an own [toString] makes [sanitize] throw. *)
Lemma sanitize_blank_field_emptied :
  (4000 < length (replicate 4001 ch_space))%nat
  /\ sanitize (Str (replicate 4001 ch_space)) = Ok []
  /\ sanitize own_toString
     = Throw (TypeError (js "Cannot convert object to primitive value")).
Proof.
  split; [rewrite length_replicate; lia|].
  split; vm_compute; reflexivity.
Qed.

Lemma isEmail_accepts_shape_witness :
  sanitized_fields req_jo name_jo email_jo message_jo
  /\ (2 <= length name_jo)%nat
  /\ (isEmail (Str email_jo) = Ok true <-> email_shaped (trim email_jo)).
Proof.
  assert (Hs : sanitized_fields req_jo name_jo email_jo message_jo)
    by (repeat split).
  assert (Hn : (2 <= length name_jo)%nat) by (vm_compute; lia).
  split; [exact Hs|]. split; [exact Hn|].
  apply (isEmail_accepts_shape env_ok world_ok req_jo
           name_jo email_jo message_jo Hs Hn).
Defined.

(** [@a.b] has one [@], a dot after it and no white space, and is rejected:
    nothing stands before the [@]. *)
Lemma email_without_local_part_rejected :
  loosely_email_shaped (js "@a.b")
  /\ isEmail (Str (js "@a.b")) = Ok false
  /\ sanitized_fields req_no_local_part name_jo (js "@a.b") message_jo
  /\ handle_contact env_ok world_ok req_no_local_part
     = (Ok (json_error 400 email_error), []).
Proof.
  split; [|repeat split].
  unfold loosely_email_shaped. split; [discriminate|]. split.
  - exists [], (js "a.b"). split; [reflexivity|].
    split; [apply not_elem_of_nil|]. split.
    + intros Hin. vm_compute in Hin.
      repeat (apply elem_of_cons in Hin as [Hin | Hin]; [discriminate|]).
      inversion Hin.
    + vm_compute. apply list_elem_of_further, list_elem_of_here.
  - vm_compute. repeat constructor.
Qed.

Lemma sanitize_twice_witness :
  sanitize (Str two_lines) = Ok (js "first second")
  /\ sanitize (Str (js "first second")) = Ok (js "first second").
Proof.
  assert (Hs : sanitize (Str two_lines) = Ok (js "first second"))
    by reflexivity.
  split; [exact Hs|].
  destruct (sanitize_twice two_lines (js "first second") Hs) as (_ & _ & Hid).
  apply Hid. vm_compute. lia.
Defined.

(** The cut at 4000 leaves a space at the end, which a second pass
    removes. *)
Lemma sanitize_changes_cut_string :
  sanitize (Str cut_after_space) = Ok (replicate 3999 97 ++ [ch_space])
  /\ sanitize (Str (replicate 3999 97 ++ [ch_space])) = Ok (replicate 3999 97)
  /\ replicate 3999 97 <> replicate 3999 97 ++ [ch_space].
Proof.
  split; [vm_compute; reflexivity|]. split; [vm_compute; reflexivity|].
  intros Heq. apply (f_equal length) in Heq.
  rewrite length_app, !length_replicate in Heq. simpl in Heq. lia.
Qed.

Lemma configuration_errors_witness :
  sanitized_fields req_jo name_jo email_jo message_jo
  /\ valid_fields name_jo email_jo message_jo
  /\ handle_contact env_no_recipient world_ok req_jo
     = (Ok (json_error 500 recipient_error), []).
Proof.
  assert (Hs : sanitized_fields req_jo name_jo email_jo message_jo)
    by (repeat split).
  assert (Hv : valid_fields name_jo email_jo message_jo)
    by (repeat split; vm_compute; lia).
  split; [exact Hs|]. split; [exact Hv|].
  destruct (configuration_errors env_no_recipient world_ok req_jo
              name_jo email_jo message_jo Hs Hv) as (Hto & _).
  apply Hto. reflexivity.
Defined.

(** With the recipient unset the answer names the missing setting, and
    nothing is logged. *)
Lemma missing_recipient_named_not_logged :
  sanitized_fields req_jo name_jo email_jo message_jo
  /\ valid_fields name_jo email_jo message_jo
  /\ CONTACT_TO_EMAIL env_no_recipient = None
  /\ handle_contact env_no_recipient world_ok req_jo
     = (Ok (json_error 500
              (js "Server not configured: CONTACT_TO_EMAIL missing.")), []).
Proof.
  split; [repeat split|]. split; [repeat split; vm_compute; lia|].
  split; vm_compute; reflexivity.
Qed.

Lemma delivery_failure_is_generic_witness :
  sanitized_fields req_jo name_jo email_jo message_jo
  /\ valid_fields name_jo email_jo message_jo
  /\ handle_contact env_ok world_down req_jo
     = (Ok (json_error 500 send_error),
        [SendMail transport_ok
           (expected_mail env_ok world_down req_jo name_jo email_jo message_jo);
         ConsoleError relay_down]).
Proof.
  assert (Hs : sanitized_fields req_jo name_jo email_jo message_jo)
    by (repeat split).
  assert (Hv : valid_fields name_jo email_jo message_jo)
    by (repeat split; vm_compute; lia).
  split; [exact Hs|]. split; [exact Hv|].
  apply (delivery_failure_is_generic env_ok world_down req_jo
           name_jo email_jo message_jo transport_ok relay_down Hs Hv);
    reflexivity.
Defined.



Lemma escapeHtml_replaces_markup_witness :
  ToString (or_else (Str (js "<b>Q&A</b>")) (Str [])) = Ok (js "<b>Q&A</b>")
  /\ escapeHtml (Str (js "<b>Q&A</b>")) = Ok (js "&lt;b&gt;Q&amp;A&lt;/b&gt;").
Proof.
  split; [reflexivity|].
  destruct (escapeHtml_replaces_markup (Str (js "<b>Q&A</b>"))
              (js "<b>Q&A</b>") eq_refl) as (r & Hr & -> & _).
  exact Hr.
Defined.

(** An object with an own [toString] makes [escapeHtml] throw. *)
Lemma escapeHtml_throws_on_own_toString :
  escapeHtml own_toString
  = Throw (TypeError (js "Cannot convert object to primitive value")).
Proof. vm_compute. reflexivity. Qed.

(** [ALLOWED_ORIGIN] is read and parsed when the server starts. *)
Example allowedOrigins_parsed :
  allowedOrigins (startup (with_ALLOWED_ORIGIN
                             (Some (js " http://a.test , ,http://b.test"))
                             env_ok))
  = [js "http://a.test"; js "http://b.test"].
Proof. vm_compute. reflexivity. Qed.

(** ** Further properties of the helpers *)

Lemma replace_crlf_from_length b s :
  (length (replace_crlf_from b s) <= length s)%nat.
Proof.
  revert b. induction s as [|c s IH]; intros b; simpl; [lia|].
  destruct (is_crlf c); [destruct b|]; simpl;
    [specialize (IH true) | specialize (IH true) | specialize (IH false)]; lia.
Qed.

Lemma trim_length s : (length (trim s) <= length s)%nat.
Proof.
  unfold trim.
  destruct (trimStart_split s) as (l & Hl & _).
  destruct (trimEnd_split (trimStart s)) as (r & Hr & _).
  rewrite Hl at 2. rewrite Hr at 2. rewrite !length_app. lia.
Qed.

Lemma sanitize_string_clean s : clean s -> sanitize_string s = s.
Proof.
  intros (Hcrlf & Hstart & Hend & Hlen).
  unfold sanitize_string, replace_crlf, trim, slice0.
  rewrite replace_crlf_from_id, trimStart_id, trimEnd_id by assumption.
  apply take_ge. assumption.
Qed.

Lemma sanitize_string_fixed s : sanitize_string s = s -> clean s.
Proof.
  intros Hfix.
  assert (Hcrlf : no_crlf s) by (rewrite <- Hfix; apply sanitize_string_no_crlf).
  assert (Hlen : (length s <= 4000)%nat)
    by (rewrite <- Hfix; apply sanitize_string_length).
  repeat split; try assumption.
  - rewrite <- Hfix. apply sanitize_string_start.
  - unfold sanitize_string, replace_crlf, slice0 in Hfix.
    rewrite replace_crlf_from_id in Hfix by assumption.
    rewrite take_ge in Hfix by (pose proof (trim_length s); lia).
    rewrite <- Hfix. apply trimEnd_end.
Qed.

Section Further.
Context `{JsNumber}.

(** X1. [sanitize] gives back a string unchanged exactly when the string
    has no carriage return or line feed, neither starts nor ends with white
    space, and has at most 4000 code units. *)
Theorem sanitize_fixed_points (s : jsstring) :
  sanitize (Str s) = Ok s <-> clean s.
Proof.
  rewrite sanitize_Str. split.
  - intros Heq. injection Heq as Heq. apply sanitize_string_fixed. assumption.
  - intros Hclean. f_equal. apply sanitize_string_clean. assumption.
Qed.

(** X2. Two passes of [sanitize] reach a fixed point: the second result is
    clean, and a third pass gives it back. *)
Theorem sanitize_settles_after_two (s : jsstring) :
  exists r1 r2,
    sanitize (Str s) = Ok r1 /\ sanitize (Str r1) = Ok r2
    /\ clean r2 /\ sanitize (Str r2) = Ok r2.
Proof.
  exists (sanitize_string s), (trimEnd (sanitize_string s)).
  assert (Hclean : clean (trimEnd (sanitize_string s))).
  { repeat split.
    - apply trimEnd_no_crlf, sanitize_string_no_crlf.
    - apply trimEnd_start, sanitize_string_start.
    - apply trimEnd_end.
    - destruct (trimEnd_split (sanitize_string s)) as (r & Hr & _).
      pose proof (sanitize_string_length s) as Hlen.
      rewrite Hr, length_app in Hlen. lia. }
  rewrite !sanitize_Str, sanitize_string_twice.
  repeat split; try apply Hclean.
  f_equal. apply sanitize_string_clean. assumption.
Qed.

(** X3. On a string [sanitize] never fails, never gives a longer string
    than it was given, and never gives one that starts with white space. *)
Theorem sanitize_shortens (s : jsstring) :
  exists r,
    sanitize (Str s) = Ok r
    /\ (length r <= length s)%nat
    /\ ~ starts_with is_space r.
Proof.
  exists (sanitize_string s). rewrite sanitize_Str.
  split; [reflexivity|]. split; [|apply sanitize_string_start].
  unfold sanitize_string, slice0. rewrite length_take.
  pose proof (trim_length (replace_crlf s)) as Ht.
  pose proof (replace_crlf_from_length false s) as Hr.
  unfold replace_crlf in *. lia.
Qed.

Lemma ToString_Arr_strings (l : list jsstring) :
  ToString (Arr (map Str l)) = Ok (join (js ",") l).
Proof.
  induction l as [|x l IH]; [reflexivity|].
  destruct l as [|y l]; [reflexivity|].
  change (ToString (Arr (map Str (x :: y :: l))))
    with (let! r := ToString (Arr (map Str (y :: l))) in
          Ok (x ++ js "," ++ r)).
  rewrite IH. reflexivity.
Qed.

(** X4. An array of strings, as a repeated form field gives, is read as its
    elements joined with commas. *)
Theorem sanitize_array_of_strings (l : list jsstring) :
  sanitize (Arr (map Str l)) = sanitize (Str (join (js ",") l)).
Proof.
  rewrite sanitize_Str. unfold sanitize, or_else. cbn [ToBoolean].
  rewrite ToString_Arr_strings. reflexivity.
Qed.

Lemma escape_char_plain c : needs_escape c = false -> escape_char c = [c].
Proof.
  unfold needs_escape, is_markup, escape_char. rewrite !orb_false_iff.
  intros (-> & ((-> & ->) & ->) & ->). reflexivity.
Qed.

Lemma escape_char_special c :
  needs_escape c = true ->
  (1 < length (escape_char c))%nat /\ head (escape_char c) = Some ch_amp.
Proof.
  unfold needs_escape, is_markup, escape_char.
  destruct (c =? ch_amp); [split; [simpl; lia | reflexivity]|].
  destruct (c =? ch_lt); [split; [simpl; lia | reflexivity]|].
  destruct (c =? ch_gt); [split; [simpl; lia | reflexivity]|].
  destruct (c =? ch_dquote); [split; [simpl; lia | reflexivity]|].
  destruct (c =? ch_squote); [split; [simpl; lia | reflexivity]|].
  discriminate.
Qed.

Lemma escape_char_length c : (1 <= length (escape_char c))%nat.
Proof.
  destruct (needs_escape c) eqn:Hc.
  - apply escape_char_special in Hc as [Hc _]. lia.
  - rewrite escape_char_plain by assumption. simpl. lia.
Qed.

Lemma escaped_length s : (length s <= length (escaped s))%nat.
Proof.
  induction s as [|c s IH]; simpl; [lia|].
  rewrite length_app. pose proof (escape_char_length c). lia.
Qed.

Lemma escaped_plain s :
  Forall (fun c => needs_escape c = false) s -> escaped s = s.
Proof.
  induction 1 as [|c s Hc Hs IH]; simpl; [reflexivity|].
  rewrite escape_char_plain, IH by assumption. reflexivity.
Qed.

Lemma escaped_same_length s :
  length (escaped s) = length s -> Forall (fun c => needs_escape c = false) s.
Proof.
  induction s as [|c s IH]; simpl; [constructor|].
  rewrite length_app. intros Hlen.
  pose proof (escaped_length s) as Hs.
  destruct (needs_escape c) eqn:Hc.
  - apply escape_char_special in Hc as [Hc _]. lia.
  - constructor; [assumption|]. apply IH.
    rewrite escape_char_plain in Hlen by assumption. simpl in Hlen. lia.
Qed.

Lemma escaped_plain_source s :
  Forall (fun c => needs_escape c = false) (escaped s) ->
  Forall (fun c => needs_escape c = false) s.
Proof.
  induction s as [|c s IH]; simpl; [constructor|].
  intros Hall. apply Forall_app in Hall as [Hc Hs].
  constructor; [|apply IH; assumption].
  destruct (needs_escape c) eqn:Hn; [exfalso|reflexivity].
  apply escape_char_special in Hn as [_ Hhead].
  destruct (escape_char c) as [|d rest]; [discriminate|].
  injection Hhead as ->. apply Forall_cons in Hc as [Hamp _]. discriminate.
Qed.

(** An entity and what follows it tell which character was escaped. *)
Lemma escape_char_app_inj c1 c2 x y :
  escape_char c1 ++ x = escape_char c2 ++ y -> c1 = c2 /\ x = y.
Proof.
  unfold escape_char, ch_amp, ch_lt, ch_gt, ch_dquote, ch_squote.
  destruct (c1 =? 38) eqn:A1; [apply N.eqb_eq in A1; subst c1|];
  [|destruct (c1 =? 60) eqn:A2; [apply N.eqb_eq in A2; subst c1|];
   [|destruct (c1 =? 62) eqn:A3; [apply N.eqb_eq in A3; subst c1|];
    [|destruct (c1 =? 34) eqn:A4; [apply N.eqb_eq in A4; subst c1|];
     [|destruct (c1 =? 39) eqn:A5; [apply N.eqb_eq in A5; subst c1|]]]]];
  (destruct (c2 =? 38) eqn:B1; [apply N.eqb_eq in B1; subst c2|];
   [|destruct (c2 =? 60) eqn:B2; [apply N.eqb_eq in B2; subst c2|];
    [|destruct (c2 =? 62) eqn:B3; [apply N.eqb_eq in B3; subst c2|];
     [|destruct (c2 =? 34) eqn:B4; [apply N.eqb_eq in B4; subst c2|];
      [|destruct (c2 =? 39) eqn:B5; [apply N.eqb_eq in B5; subst c2|]]]]]);
  simpl; intros Heq; injection Heq; intros; subst;
    try discriminate; auto.
Qed.

Lemma escaped_inj s1 : forall s2, escaped s1 = escaped s2 -> s1 = s2.
Proof.
  induction s1 as [|c1 s1 IH]; intros [|c2 s2]; simpl; intros Heq.
  - reflexivity.
  - pose proof (escape_char_length c2) as Hc.
    apply (f_equal length) in Heq. rewrite length_app in Heq. simpl in Heq. lia.
  - pose proof (escape_char_length c1) as Hc.
    apply (f_equal length) in Heq. rewrite length_app in Heq. simpl in Heq. lia.
  - apply escape_char_app_inj in Heq as [-> Heq]. f_equal. apply IH, Heq.
Qed.

(** X5. [escapeHtml] works character by character: escaping two texts put
    together gives the two escaped texts put together. *)
Theorem escapeHtml_concat (a b : jsstring) :
  exists ea eb,
    escapeHtml (Str a) = Ok ea /\ escapeHtml (Str b) = Ok eb
    /\ escapeHtml (Str (a ++ b)) = Ok (ea ++ eb).
Proof.
  exists (escaped a), (escaped b). rewrite !escapeHtml_Str.
  repeat split. f_equal. unfold escaped. apply flat_map_app.
Qed.

(** X6. [escapeHtml] never shortens a text; it gives the text back unchanged
    exactly when the text has none of the five characters it replaces, and
    only then does escaping a second time change nothing: the ampersand of
    an entity is escaped again. *)
Theorem escapeHtml_unchanged_iff_plain (s : jsstring) :
  exists r,
    escapeHtml (Str s) = Ok r
    /\ (length s <= length r)%nat
    /\ (r = s <-> Forall (fun c => needs_escape c = false) s)
    /\ (escapeHtml (Str r) = Ok r
        <-> Forall (fun c => needs_escape c = false) s).
Proof.
  exists (escaped s). rewrite !escapeHtml_Str.
  split; [reflexivity|]. split; [apply escaped_length|].
  assert (Hiff : forall t, escaped t = t
                           <-> Forall (fun c => needs_escape c = false) t).
  { intros t. split; [|apply escaped_plain].
    intros Heq. apply escaped_same_length. rewrite Heq. reflexivity. }
  split; [apply Hiff|]. split.
  - intros Heq. injection Heq as Heq. apply escaped_plain_source, Hiff, Heq.
  - intros Hplain. f_equal. rewrite (escaped_plain s Hplain).
    apply escaped_plain, Hplain.
Qed.

(** X7. [escapeHtml] loses nothing: two texts that escape to the same text
    are the same text. *)
Theorem escapeHtml_injective (s1 s2 r : jsstring) :
  escapeHtml (Str s1) = Ok r -> escapeHtml (Str s2) = Ok r -> s1 = s2.
Proof.
  rewrite !escapeHtml_Str. intros H1 H2.
  injection H1 as <-. injection H2 as H2. symmetry. apply escaped_inj, H2.
Qed.

Lemma trimStart_blank s : blank s -> trimStart s = [].
Proof. induction 1 as [|c s Hc Hs IH]; simpl; [|rewrite Hc]; auto. Qed.

Lemma trimEnd_blank s : blank s -> trimEnd s = [].
Proof. induction 1 as [|c s Hc Hs IH]; simpl; [|rewrite IH, Hc]; auto. Qed.

Lemma trimStart_blank_app l s : blank l -> trimStart (l ++ s) = trimStart s.
Proof. induction 1 as [|c l Hc Hl IH]; simpl; [|rewrite Hc]; auto. Qed.

Lemma trimEnd_app_blank s r : blank r -> trimEnd (s ++ r) = trimEnd s.
Proof.
  intros Hr. induction s as [|c s IH]; simpl.
  - apply trimEnd_blank, Hr.
  - rewrite IH. reflexivity.
Qed.

(** White space around a string does not change what [trim] gives. *)
Lemma trim_blank_around l s r :
  blank l -> blank r -> trim (l ++ s ++ r) = trim s.
Proof.
  intros Hl Hr. unfold trim. rewrite trimStart_blank_app by assumption.
  induction s as [|c s IH]; simpl.
  - rewrite trimStart_blank by assumption. reflexivity.
  - destruct (is_space c); [assumption|].
    apply (trimEnd_app_blank (c :: s) r Hr).
Qed.

(** X8. [isEmail] does not see white space around the address. *)
Theorem isEmail_ignores_blank_around (l s r : jsstring) :
  blank l -> blank r -> isEmail (Str (l ++ s ++ r)) = isEmail (Str s).
Proof.
  intros Hl Hr. rewrite !isEmail_Str, trim_blank_around by assumption.
  reflexivity.
Qed.

Lemma createTransporter_Ok_inv e t :
  createTransporter e = Ok t -> relay_configured e.
Proof.
  intros Ht. unfold relay_configured.
  destruct (truthy (SMTP_HOST e)) eqn:Hh, (truthy (SMTP_USER e)) eqn:Hu,
    (truthy (SMTP_PASS e)) eqn:Hp; try (repeat split; reflexivity);
    unfold createTransporter in Ht; rewrite Hh, Hu, Hp in Ht; discriminate.
Qed.

(** X9. [createTransporter] builds a transport exactly when the relay host
    and both credentials are set to non-empty strings, and otherwise throws
    the error that names the three settings. The transport has that host and
    those credentials; its port is 465 when [SMTP_PORT] is unset or empty;
    it is secure exactly when [SMTP_SECURE] is unset, empty or the string
    [true]. *)
Theorem createTransporter_outcome (e : env) :
  ((exists t, createTransporter e = Ok t) <-> relay_configured e)
  /\ (forall err, createTransporter e = Throw err -> err = Error missing_smtp)
  /\ (forall t, createTransporter e = Ok t ->
        host t = show (SMTP_HOST e) /\ auth_user t = show (SMTP_USER e)
        /\ auth_pass t = show (SMTP_PASS e)
        /\ (truthy (SMTP_PORT e) = false -> port t = number_of_N 465)
        /\ (secure t = true
            <-> truthy (SMTP_SECURE e) = false
                \/ SMTP_SECURE e = Some (js "true"))).
Proof.
  split; [|split].
  - split; [intros [t Ht]; apply (createTransporter_Ok_inv e t Ht)
           | apply createTransporter_configured].
  - intros err Herr. unfold createTransporter in Herr.
    destruct (negb (truthy (SMTP_HOST e)) || negb (truthy (SMTP_USER e))
              || negb (truthy (SMTP_PASS e))); congruence.
  - intros t Ht. unfold createTransporter in Ht.
    destruct (negb (truthy (SMTP_HOST e)) || negb (truthy (SMTP_USER e))
              || negb (truthy (SMTP_PASS e))); [discriminate|].
    injection Ht as <-. cbn [host auth_user auth_pass port secure].
    repeat split; try (intros ->; reflexivity).
    + rewrite bool_decide_eq_true. unfold or_str.
      destruct (SMTP_SECURE e) as [[|c s]|]; simpl; auto.
      intros ->. right. reflexivity.
    + rewrite bool_decide_eq_true. unfold or_str.
      destruct (SMTP_SECURE e) as [[|c s]|]; simpl; try reflexivity.
      intros [Hf | Ht]; [discriminate | congruence].
Qed.

(** *** The handler on every request *)

Lemma contact_handler_throw e w req err :
  sanitize (get_opt (body req) (js "name")) = Throw err
  \/ (exists n, sanitize (get_opt (body req) (js "name")) = Ok n
                /\ sanitize (get_opt (body req) (js "email")) = Throw err)
  \/ (exists n em, sanitize (get_opt (body req) (js "name")) = Ok n
                   /\ sanitize (get_opt (body req) (js "email")) = Ok em
                   /\ sanitize (get_opt (body req) (js "message")) = Throw err) ->
  handle_contact e w req
  = (Ok (json_error 500 send_error), [ConsoleError err]).
Proof.
  unfold handle_contact, contact_handler, try_catch, mbind, lift.
  intros [Hn | [(n & Hn & He) | (n & em & Hn & He & Hm)]].
  - rewrite Hn. reflexivity.
  - rewrite Hn, He. reflexivity.
  - rewrite Hn, He, Hm. reflexivity.
Qed.

(** Either a field fails to sanitize, or the three fields sanitize. *)
Lemma fields_sanitize_or_throw req :
  (exists err,
     sanitize (get_opt (body req) (js "name")) = Throw err
     \/ (exists n, sanitize (get_opt (body req) (js "name")) = Ok n
                   /\ sanitize (get_opt (body req) (js "email")) = Throw err)
     \/ (exists n em, sanitize (get_opt (body req) (js "name")) = Ok n
                      /\ sanitize (get_opt (body req) (js "email")) = Ok em
                      /\ sanitize (get_opt (body req) (js "message"))
                         = Throw err))
  \/ (exists n em m, sanitized_fields req n em m).
Proof.
  unfold sanitized_fields.
  destruct (sanitize (get_opt (body req) (js "name"))) as [n|err];
    [|left; exists err; left; reflexivity].
  destruct (sanitize (get_opt (body req) (js "email"))) as [em|err];
    [|left; exists err; right; left; exists n; split; reflexivity].
  destruct (sanitize (get_opt (body req) (js "message"))) as [m|err];
    [|left; exists err; right; right; exists n, em; repeat split].
  right. exists n, em, m. repeat split.
Qed.

Lemma sanitize_Ok_inv v r :
  sanitize v = Ok r -> no_crlf r /\ (length r <= 4000)%nat.
Proof.
  unfold sanitize. destruct (ToString (or_else v (Str []))) as [s|err];
    simpl; [|discriminate].
  intros Hr. injection Hr as <-.
  split; [apply sanitize_string_no_crlf | apply sanitize_string_length].
Qed.

(** A mail is handed to the transport only for valid fields, with the
    recipient set and the transport built. *)
Lemma sent_mail_inv e w req r effects t sent :
  handle_contact e w req = (r, effects) ->
  SendMail t sent ∈ effects ->
  exists n em m,
    sanitized_fields req n em m /\ valid_fields n em m
    /\ truthy (CONTACT_TO_EMAIL e) = true
    /\ createTransporter e = Ok t
    /\ sent = expected_mail e w req n em m
    /\ (relay w t sent = None -> r = Ok json_ok /\ effects = [SendMail t sent]).
Proof.
  intros Hrun Hin.
  destruct (fields_sanitize_or_throw req) as [[err Hthrow] | (n & em & m & Hs)].
  { rewrite (contact_handler_throw e w req err Hthrow) in Hrun.
    injection Hrun as <- <-. apply list_elem_of_singleton in Hin. discriminate. }
  rewrite (contact_handler_run e w req n em m Hs) in Hrun.
  destruct (length n <? 2)%nat eqn:Hn;
    [injection Hrun as <- <-; inversion Hin|].
  destruct (test_whole email_regex (trim em)) eqn:He; simpl in Hrun;
    [|injection Hrun as <- <-; inversion Hin].
  destruct (length m <? 10)%nat eqn:Hm;
    [injection Hrun as <- <-; inversion Hin|].
  destruct (truthy (CONTACT_TO_EMAIL e)) eqn:Hto; simpl in Hrun;
    [|injection Hrun as <- <-; inversion Hin].
  destruct (createTransporter e) as [t'|err] eqn:Ht;
    [|injection Hrun as <- <-; apply list_elem_of_singleton in Hin; discriminate].
  assert (Hv : valid_fields n em m).
  { repeat split; [apply Nat.ltb_ge, Hn | rewrite isEmail_Str, He; reflexivity
                  | apply Nat.ltb_ge, Hm]. }
  exists n, em, m.
  destruct (relay w t' (expected_mail e w req n em m)) as [err|] eqn:Hrelay;
    injection Hrun as <- <-.
  - apply elem_of_cons in Hin as [Hin | Hin];
      [|apply list_elem_of_singleton in Hin; discriminate].
    injection Hin as -> ->.
    do 5 (split; [first [assumption | reflexivity]|]). congruence.
  - apply list_elem_of_singleton in Hin. injection Hin as -> ->.
    do 5 (split; [first [assumption | reflexivity]|]).
    intros _. split; reflexivity.
Qed.

(** X10. The handler answers every request: it never lets an error out. The
    answer is 400 with one of the three validation messages and nothing
    sent or logged, or 500 for the missing recipient with nothing sent or
    logged, or 500 [Failed to send message.] with the error logged (after at
    most one mail was handed to the transport), or 200 with exactly one
    mail handed to the transport. *)
Theorem handler_always_replies (e : env) (w : world) (req : request) :
  exists reply effects,
    handle_contact e w req = (Ok reply, effects)
    /\ ((effects = []
         /\ (reply = json_error 400 name_error
             \/ reply = json_error 400 email_error
             \/ reply = json_error 400 message_error
             \/ reply = json_error 500 recipient_error))
        \/ (reply = json_error 500 send_error
            /\ exists err, effects = [ConsoleError err]
                           \/ exists t sent,
                                effects = [SendMail t sent; ConsoleError err])
        \/ (reply = json_ok /\ exists t sent, effects = [SendMail t sent])).
Proof.
  destruct (fields_sanitize_or_throw req) as [[err Hthrow] | (n & em & m & Hs)].
  { rewrite (contact_handler_throw e w req err Hthrow).
    do 2 eexists. split; [reflexivity|]. right. left. eauto. }
  rewrite (contact_handler_run e w req n em m Hs).
  destruct (length n <? 2)%nat;
    [do 2 eexists; split; [reflexivity|]; left; auto|].
  destruct (test_whole email_regex (trim em)); simpl;
    [|do 2 eexists; split; [reflexivity|]; left; auto].
  destruct (length m <? 10)%nat;
    [do 2 eexists; split; [reflexivity|]; left; auto|].
  destruct (truthy (CONTACT_TO_EMAIL e)); simpl;
    [|do 2 eexists; split; [reflexivity|]; left; auto 6].
  destruct (createTransporter e) as [t|err];
    [|do 2 eexists; split; [reflexivity|]; right; left; eauto].
  destruct (relay w t (expected_mail e w req n em m)) as [err|].
  - do 2 eexists. split; [reflexivity|]. right. left. eauto 6.
  - do 2 eexists. split; [reflexivity|]. right. right. eauto.
Qed.

(** X11. When one of the three fields cannot be coerced to a string, the
    handler answers 500 [Failed to send message.] and logs the error,
    whatever the other fields are; nothing is sent. *)
Theorem uncoercible_field_is_answered_500 e w req key err :
  key ∈ [js "name"; js "email"; js "message"] ->
  sanitize (get_opt (body req) key) = Throw err ->
  exists logged,
    handle_contact e w req
    = (Ok (json_error 500 send_error), [ConsoleError logged]).
Proof.
  intros Hkey Hthrow.
  destruct (fields_sanitize_or_throw req)
    as [[err' Hthrow'] | (n & em & m & Hn & He & Hm)].
  - exists err'. apply contact_handler_throw. assumption.
  - exfalso.
    repeat (apply elem_of_cons in Hkey as [-> | Hkey]; [congruence|]).
    inversion Hkey.
Qed.

(** X12. The handler answers 200 only when the three fields sanitize and
    pass the validator, the recipient is set, the transport is built and
    the relay took the mail, which is then the one mail handed to the
    transport. *)
Theorem success_means_sent e w req reply effects :
  handle_contact e w req = (Ok reply, effects) ->
  status reply = 200 ->
  exists n em m t,
    sanitized_fields req n em m /\ valid_fields n em m
    /\ truthy (CONTACT_TO_EMAIL e) = true
    /\ createTransporter e = Ok t
    /\ relay w t (expected_mail e w req n em m) = None
    /\ reply = json_ok
    /\ effects = [SendMail t (expected_mail e w req n em m)].
Proof.
  intros Hrun Hstatus.
  destruct (fields_sanitize_or_throw req) as [[err Hthrow] | (n & em & m & Hs)].
  { rewrite (contact_handler_throw e w req err Hthrow) in Hrun.
    injection Hrun as <- <-. discriminate. }
  rewrite (contact_handler_run e w req n em m Hs) in Hrun.
  destruct (length n <? 2)%nat eqn:Hn;
    [injection Hrun as <- <-; discriminate|].
  destruct (test_whole email_regex (trim em)) eqn:He; simpl in Hrun;
    [|injection Hrun as <- <-; discriminate].
  destruct (length m <? 10)%nat eqn:Hm;
    [injection Hrun as <- <-; discriminate|].
  destruct (truthy (CONTACT_TO_EMAIL e)) eqn:Hto; simpl in Hrun;
    [|injection Hrun as <- <-; discriminate].
  destruct (createTransporter e) as [t|err] eqn:Ht;
    [|injection Hrun as <- <-; discriminate].
  destruct (relay w t (expected_mail e w req n em m)) as [err|] eqn:Hrelay;
    injection Hrun as <- <-; [discriminate|].
  exists n, em, m, t. split; [exact Hs|]. split.
  { repeat split; [apply Nat.ltb_ge, Hn | rewrite isEmail_Str, He; reflexivity
                  | apply Nat.ltb_ge, Hm]. }
  repeat split; assumption.
Qed.

Lemma or_str_truthy a b : truthy b = true -> truthy (or_str a b) = true.
Proof. unfold or_str. destruct (truthy a) eqn:Ha; auto. Qed.

Lemma subject_of_no_crlf n : no_crlf n -> no_crlf (subject_of n).
Proof.
  intros Hn. unfold subject_of.
  repeat (apply Forall_app; split); try assumption;
    vm_compute; repeat constructor.
Qed.

(** X13. Every mail the handler hands to the transport has a subject and a
    reply-to address without carriage return or line feed, a reply-to
    address that [isEmail] accepts and that has at most 4000 code units, the
    configured recipient as its recipient, and a non-empty sender: the
    configured sender if there is one, the relay user otherwise. *)
Theorem sent_mail_is_well_formed e w req r effects t sent :
  handle_contact e w req = (r, effects) ->
  SendMail t sent ∈ effects ->
  no_crlf (subject sent) /\ no_crlf (replyTo sent)
  /\ (length (replyTo sent) <= 4000)%nat
  /\ isEmail (Str (replyTo sent)) = Ok true
  /\ mail_to sent = CONTACT_TO_EMAIL e /\ truthy (mail_to sent) = true
  /\ mail_from sent = or_str (CONTACT_FROM_EMAIL e) (SMTP_USER e)
  /\ truthy (mail_from sent) = true.
Proof.
  intros Hrun Hin.
  destruct (sent_mail_inv e w req r effects t sent Hrun Hin)
    as (n & em & m & (Hn & He & Hm) & (_ & Hemail & _) & Hto & Ht & -> & _).
  apply sanitize_Ok_inv in Hn as [Hn _], He as [He Hlen].
  apply createTransporter_Ok_inv in Ht as (_ & Hu & _).
  cbn [subject replyTo mail_to mail_from expected_mail].
  repeat split; try assumption; try reflexivity.
  - apply subject_of_no_crlf. assumption.
  - apply or_str_truthy. assumption.
Qed.

Lemma line_feeds_app a b : line_feeds (a ++ b) = (line_feeds a + line_feeds b)%nat.
Proof. unfold line_feeds. rewrite filter_app, length_app. reflexivity. Qed.

Lemma line_feeds_no_crlf s : no_crlf s -> line_feeds s = 0%nat.
Proof.
  unfold line_feeds. induction 1 as [|c s Hc Hs IH]; [reflexivity|].
  rewrite filter_cons_False; [assumption|].
  intros ->. discriminate.
Qed.

Lemma line_feeds_show x :
  (forall s, x = Some s -> line_feeds s = 0%nat) -> line_feeds (show x) = 0%nat.
Proof. destruct x as [s|]; simpl; [intros Hs; apply Hs|]; reflexivity. Qed.

(** X14. The text body of every mail the handler hands to the transport has
    eleven lines, provided the time stamp, the client address and the user
    agent hold no line feed: nothing the submitter puts in a field adds a
    line. *)
Theorem text_body_has_eleven_lines e w req r effects t sent :
  handle_contact e w req = (r, effects) ->
  SendMail t sent ∈ effects ->
  line_feeds (clock w 0) = 0%nat ->
  (forall s, ip req = Some s -> line_feeds s = 0%nat) ->
  (forall s, user_agent req = Some s -> line_feeds s = 0%nat) ->
  line_feeds (text sent) = 10%nat.
Proof.
  intros Hrun Hin Hclock Hip Hua.
  destruct (sent_mail_inv e w req r effects t sent Hrun Hin)
    as (n & em & m & (Hn & He & Hm) & _ & _ & _ & -> & _).
  apply sanitize_Ok_inv in Hn as [Hn _], He as [He _], Hm as [Hm _].
  apply line_feeds_no_crlf in Hn, He, Hm.
  assert (Hagent : line_feeds (show (or_str (user_agent req)
                                       (Some (js "unknown")))) = 0%nat).
  { unfold or_str. destruct (user_agent req) as [[|c s]|] eqn:Hagent;
      simpl; try reflexivity. apply Hua. reflexivity. }
  apply line_feeds_show in Hip.
  cbn [text expected_mail]. unfold text_of, join.
  rewrite !line_feeds_app, Hn, He, Hm, Hclock, Hip, Hagent.
  reflexivity.
Qed.

(** X15. A request whose body is not an object (no body, or an array) has
    none of the three fields and is answered 400 with the name message;
    nothing is sent or logged. *)
Theorem request_without_fields_is_rejected e w req :
  (forall props, body req <> Obj props) ->
  handle_contact e w req = (Ok (json_error 400 name_error), []).
Proof.
  intros Hbody.
  assert (Hget : forall key, get_opt (body req) key = Undefined).
  { intros key. destruct (body req); try reflexivity.
    exfalso. apply (Hbody props). reflexivity. }
  rewrite (contact_handler_run e w req [] [] []); [reflexivity|].
  unfold sanitized_fields. rewrite !Hget. repeat split.
Qed.

(** X16. A request whose [name] is absent or falsy ([null], [false], zero,
    the empty string) is answered 400 with the name message when its other
    two fields can be coerced, whatever they are. *)
Theorem falsy_name_is_rejected e w req em m :
  ToBoolean (get_opt (body req) (js "name")) = false ->
  sanitize (get_opt (body req) (js "email")) = Ok em ->
  sanitize (get_opt (body req) (js "message")) = Ok m ->
  handle_contact e w req = (Ok (json_error 400 name_error), []).
Proof.
  intros Hname He Hm.
  rewrite (contact_handler_run e w req [] em m); [reflexivity|].
  repeat split; try assumption.
  unfold sanitize, or_else. rewrite Hname. reflexivity.
Qed.

(** *** The origins read from the environment *)

Lemma split_on_no_sep c x : c ∉ x -> split_on c x = [x].
Proof.
  induction x as [|d x IH]; [reflexivity|].
  rewrite not_elem_of_cons. intros [Hd Hx]. simpl.
  destruct (d =? c) eqn:Hdc; [apply N.eqb_eq in Hdc; congruence|].
  rewrite (IH Hx). reflexivity.
Qed.

Lemma split_on_app c x rest :
  c ∉ x -> split_on c (x ++ c :: rest) = x :: split_on c rest.
Proof.
  induction x as [|d x IH]; simpl.
  - intros _. rewrite N.eqb_refl. reflexivity.
  - rewrite not_elem_of_cons. intros [Hd Hx].
    destruct (d =? c) eqn:Hdc; [apply N.eqb_eq in Hdc; congruence|].
    rewrite (IH Hx). reflexivity.
Qed.

Lemma split_on_join c l :
  l <> [] -> Forall (fun x => c ∉ x) l -> split_on c (join [c] l) = l.
Proof.
  intros Hne Hall. induction Hall as [|x l Hx Hl IH]; [congruence|].
  destruct l as [|y l].
  - simpl. apply split_on_no_sep, Hx.
  - change (join [c] (x :: y :: l)) with (x ++ c :: join [c] (y :: l)).
    rewrite split_on_app by assumption. rewrite IH by discriminate.
    reflexivity.
Qed.

Lemma split_on_pieces c s : Forall (fun x => c ∉ x) (split_on c s).
Proof.
  induction s as [|d s IH]; simpl.
  - constructor; [apply not_elem_of_nil | constructor].
  - destruct (d =? c) eqn:Hdc.
    + constructor; [apply not_elem_of_nil | assumption].
    + apply N.eqb_neq in Hdc.
      destruct (split_on c s) as [|x xs]; constructor.
      * rewrite not_elem_of_cons. split; [congruence | apply not_elem_of_nil].
      * constructor.
      * apply Forall_cons in IH as [Hx _]. rewrite not_elem_of_cons.
        split; [congruence | assumption].
      * apply Forall_cons in IH as [_ Hxs]. assumption.
Qed.

Lemma trim_elem c s : c ∈ trim s -> c ∈ s.
Proof.
  destruct (trim_trimmed s) as [(l & r & Hs & _) _].
  intros Hin. rewrite Hs. rewrite !elem_of_app. auto.
Qed.

Lemma show_or_empty x : show (or_str (Some x) (Some [])) = x.
Proof. destruct x; reflexivity. Qed.

(** X17. The origins read from [ALLOWED_ORIGIN] are the pieces between the
    commas, trimmed, the empty ones dropped: every origin read is non-empty,
    has no white space at either end and no comma; when the variable is
    unset or empty no origin is read. *)
Theorem allowedOrigins_entries (e : env) :
  Forall list_entry (allowedOrigins (startup e))
  /\ (truthy (ALLOWED_ORIGIN e) = false -> allowedOrigins (startup e) = []).
Proof.
  split.
  - apply Forall_forall. intros o Ho. cbn [allowedOrigins startup] in Ho.
    apply list_elem_of_filter in Ho as [Hne Ho].
    apply list_elem_of_fmap in Ho as (piece & -> & Hpiece).
    destruct (trim_trimmed piece) as (_ & Hstart & Hend).
    repeat split; try assumption.
    intros Hcomma. apply trim_elem in Hcomma.
    pose proof (split_on_pieces 44
                  (show (or_str (ALLOWED_ORIGIN e) (Some [])))) as Hall.
    rewrite Forall_forall in Hall. apply (Hall piece Hpiece Hcomma).
  - intros Hunset. cbn [allowedOrigins startup]. unfold or_str.
    rewrite Hunset. reflexivity.
Qed.

Lemma list_entries_kept (l : list jsstring) :
  Forall list_entry l -> filter (fun s => s <> []) (map trim l) = l.
Proof.
  induction 1 as [|o l (Hne & Hstart & Hend & _) Hl IH]; [reflexivity|].
  cbn [map]. unfold trim at 1.
  rewrite trimStart_id, trimEnd_id by assumption.
  rewrite filter_cons_True by assumption. f_equal. apply IH.
Qed.

(** X18. Reading back a list: when [ALLOWED_ORIGIN] holds origins joined
    with commas, each non-empty, without white space at its ends and
    without a comma, the origins read are those origins in their order. *)
Theorem allowedOrigins_of_joined (e : env) (l : list jsstring) :
  Forall list_entry l ->
  allowedOrigins (startup (with_ALLOWED_ORIGIN (Some (join (js ",") l)) e)) = l.
Proof.
  intros Hl. cbn [allowedOrigins startup with_ALLOWED_ORIGIN ALLOWED_ORIGIN].
  rewrite show_or_empty.
  destruct l as [|x l]; [reflexivity|].
  change (js ",") with [44]. rewrite split_on_join.
  - apply list_entries_kept. assumption.
  - discriminate.
  - eapply Forall_impl; [exact Hl|]. intros o (_ & _ & _ & Ho). exact Ho.
Qed.

(** *** The routes around the handler *)

Lemma health_not_limited p :
  route_is (js "/health") p = true -> mounted_at (js "/api/contact") p = false.
Proof.
  unfold route_is, mounted_at. rewrite orb_true_iff, !bool_decide_eq_true.
  intros [-> | ->]; vm_compute; reflexivity.
Qed.

(** X19. [GET /health] whose body, if it has one, is read without error is
    answered 200 with [{ ok: true }] whatever the configuration and
    whatever came before; it sends nothing, logs nothing and does not count
    for the limiter. When its body cannot be read it is answered 500
    [Server error] instead, and the error is logged. *)
Theorem health_always_ok (e : env) (w : world)
    (store : gmap (option jsstring) (nat * N)) (req : request) :
  method req = GET ->
  route_is (js "/health") (path req) = true ->
  (body_error req = None ->
     serve e w store req
     = ({| res_status := 200; res_content := Json true None;
           res_allow_origin := allow_origin_header (startup e) (origin req) |},
        [], store))
  /\ (forall err, body_error req = Some err ->
        serve e w store req = (server_error, [ConsoleError err], store)).
Proof.
  intros Hm Hroute. split.
  - intros Hbody. unfold serve.
    rewrite Hbody, Hm, (health_not_limited _ Hroute), Hroute. reflexivity.
  - intros err Herr. apply serve_unparsed. assumption.
Qed.

Lemma server_error_is_no_handler_message :
  js "Server error" <> name_error /\ js "Server error" <> email_error
  /\ js "Server error" <> message_error /\ js "Server error" <> recipient_error
  /\ js "Server error" <> send_error.
Proof. repeat split; intros Heq; vm_compute in Heq; discriminate. Qed.

(** The handler completes with a reply of its own. *)
Lemma handle_contact_own_reply e w req :
  exists reply effects,
    handle_contact e w req = (Ok reply, effects)
    /\ content reply <> Json false (Some (js "Server error")).
Proof.
  destruct server_error_is_no_handler_message as (N1 & N2 & N3 & N4 & N5).
  assert (Herr : forall code msg,
             js "Server error" <> msg ->
             content (json_error code msg)
             <> Json false (Some (js "Server error"))).
  { intros code msg Hmsg Heq. injection Heq. congruence. }
  destruct (fields_sanitize_or_throw req) as [[err Hthrow] | (n & em & m & Hs)].
  { rewrite (contact_handler_throw e w req err Hthrow). eauto. }
  rewrite (contact_handler_run e w req n em m Hs).
  destruct (length n <? 2)%nat; [eauto|].
  destruct (test_whole email_regex (trim em)); simpl; [|eauto].
  destruct (length m <? 10)%nat; [eauto|].
  destruct (truthy (CONTACT_TO_EMAIL e)); simpl; [|eauto].
  destruct (createTransporter e) as [t|err]; [|eauto].
  destruct (relay w t (expected_mail e w req n em m)) as [err|]; [eauto|].
  do 2 eexists. split; [reflexivity | discriminate].
Qed.

(** X20. Of the requests that reach the routes (their body read without
    error), only a [POST] to the contact route sends a mail or logs: every
    other one leaves no effect. And none of them gets the [Server error] of
    the final error middleware, because the contact handler catches every
    error itself. *)
Theorem only_contact_has_effects (e : env) (w : world)
    (store : gmap (option jsstring) (nat * N)) (req : request) :
  body_error req = None ->
  ((serve e w store req).1.2 <> [] ->
     method req = POST /\ route_is (js "/api/contact") (path req) = true)
  /\ res_content (serve e w store req).1.1
     <> Json false (Some (js "Server error")).
Proof.
  intros Hbody. unfold serve. rewrite Hbody.
  destruct (method req) eqn:Hm; cbn [fst snd res_content];
    try (split; [congruence | discriminate]);
    destruct (if mounted_at (js "/api/contact") (path req)
              then limiter_hit (startup e) store (ip req) (arrival req)
              else (true, store)) as [pass store'];
    destruct pass; cbn [negb fst snd res_content];
    try (split; [congruence | discriminate]).
  - change (bool_decide (GET = GET)) with true.
    change (bool_decide (GET = POST)) with false. cbn [andb].
    destruct (route_is (js "/health") (path req));
      [split; [cbn; congruence | discriminate]|].
    destruct (route_is (js "/") (path req)); cbn;
      (split; [congruence | discriminate]).
  - change (bool_decide (POST = GET)) with false.
    change (bool_decide (POST = POST)) with true. cbn [andb].
    destruct (route_is (js "/api/contact") (path req)).
    + split; [auto|].
      destruct (handle_contact_own_reply e w req)
        as (reply & effects & -> & Hreply).
      cbn [fst res_content]. assumption.
    + cbn. split; [congruence | discriminate].
  - change (bool_decide (OtherMethod = GET)) with false.
    change (bool_decide (OtherMethod = POST)) with false. cbn.
    split; [congruence | discriminate].
Qed.

End Further.

(** ** The further properties at concrete inputs *)

Lemma escapeHtml_injective_witness :
  escapeHtml (Str (js "Q&A")) = Ok (js "Q&amp;A") /\ js "Q&A" = js "Q&A".
Proof.
  split; [reflexivity|].
  apply (escapeHtml_injective (js "Q&A") (js "Q&A") (js "Q&amp;A"));
    reflexivity.
Defined.

Lemma isEmail_ignores_blank_around_witness :
  blank [ch_space; ch_space] /\ blank [ch_lf]
  /\ isEmail (Str ([ch_space; ch_space] ++ email_jo ++ [ch_lf]))
     = isEmail (Str email_jo).
Proof.
  assert (Hl : blank [ch_space; ch_space]) by (repeat constructor).
  assert (Hr : blank [ch_lf]) by (repeat constructor).
  split; [exact Hl|]. split; [exact Hr|].
  apply (isEmail_ignores_blank_around _ email_jo _ Hl Hr).
Defined.

Lemma uncoercible_field_is_answered_500_witness :
  exists logged,
    handle_contact env_ok world_ok req_object_name
    = (Ok (json_error 500 send_error), [ConsoleError logged]).
Proof.
  apply (uncoercible_field_is_answered_500 env_ok world_ok req_object_name
           (js "name")
           (TypeError (js "Cannot convert object to primitive value"))).
  - apply list_elem_of_here.
  - reflexivity.
Defined.

Lemma success_means_sent_witness :
  handle_contact env_ok world_ok req_jo
  = (Ok json_ok,
     [SendMail transport_ok
        (expected_mail env_ok world_ok req_jo name_jo email_jo message_jo)])
  /\ exists n em m t,
       sanitized_fields req_jo n em m /\ valid_fields n em m
       /\ truthy (CONTACT_TO_EMAIL env_ok) = true
       /\ createTransporter env_ok = Ok t
       /\ relay world_ok t (expected_mail env_ok world_ok req_jo n em m) = None
       /\ json_ok = json_ok
       /\ [SendMail transport_ok
             (expected_mail env_ok world_ok req_jo name_jo email_jo message_jo)]
          = [SendMail t (expected_mail env_ok world_ok req_jo n em m)].
Proof.
  split; [reflexivity|].
  apply (success_means_sent env_ok world_ok req_jo); reflexivity.
Defined.

Lemma sent_mail_is_well_formed_witness :
  no_crlf (subject (expected_mail env_ok world_ok req_jo
                      name_jo email_jo message_jo))
  /\ replyTo (expected_mail env_ok world_ok req_jo
                name_jo email_jo message_jo) = email_jo.
Proof.
  destruct (sent_mail_is_well_formed env_ok world_ok req_jo (Ok json_ok)
              [SendMail transport_ok
                 (expected_mail env_ok world_ok req_jo
                    name_jo email_jo message_jo)]
              transport_ok
              (expected_mail env_ok world_ok req_jo name_jo email_jo message_jo)
              eq_refl (list_elem_of_here _ _)) as (Hsubject & _).
  split; [exact Hsubject | reflexivity].
Defined.

Lemma text_body_has_eleven_lines_witness :
  line_feeds (text (expected_mail env_ok world_ok req_jo
                      name_jo email_jo message_jo)) = 10%nat.
Proof.
  apply (text_body_has_eleven_lines env_ok world_ok req_jo (Ok json_ok)
           [SendMail transport_ok
              (expected_mail env_ok world_ok req_jo
                 name_jo email_jo message_jo)]
           transport_ok).
  - reflexivity.
  - apply list_elem_of_here.
  - reflexivity.
  - intros s Hs. injection Hs as <-. reflexivity.
  - intros s Hs. discriminate.
Defined.

Lemma request_without_fields_is_rejected_witness :
  handle_contact env_ok world_ok req_no_body
  = (Ok (json_error 400 name_error), []).
Proof.
  apply (request_without_fields_is_rejected env_ok world_ok req_no_body).
  intros props. discriminate.
Defined.

Lemma falsy_name_is_rejected_witness :
  handle_contact env_ok world_ok req_zero_name
  = (Ok (json_error 400 name_error), []).
Proof.
  apply (falsy_name_is_rejected env_ok world_ok req_zero_name
           email_jo message_jo); reflexivity.
Defined.

Lemma allowedOrigins_of_joined_witness :
  Forall list_entry two_origins
  /\ allowedOrigins
       (startup (with_ALLOWED_ORIGIN (Some (join (js ",") two_origins)) env_ok))
     = two_origins.
Proof.
  assert (Hl : Forall list_entry two_origins).
  { repeat constructor; try discriminate;
      try (vm_compute; intros Hs; discriminate).
    - intros Hin. vm_compute in Hin.
      repeat (apply elem_of_cons in Hin as [Hin | Hin]; [discriminate|]).
      inversion Hin.
    - intros Hin. vm_compute in Hin.
      repeat (apply elem_of_cons in Hin as [Hin | Hin]; [discriminate|]).
      inversion Hin. }
  split; [exact Hl|].
  apply (allowedOrigins_of_joined env_ok two_origins Hl).
Defined.

Lemma health_always_ok_witness :
  serve env_no_recipient world_down ∅ req_health
  = ({| res_status := 200; res_content := Json true None;
        res_allow_origin := None |}, [], ∅)
  /\ serve env_no_recipient world_down ∅ req_health_unparsed
     = (server_error, [ConsoleError parse_failure], ∅).
Proof.
  split.
  - destruct (health_always_ok env_no_recipient world_down ∅ req_health
                eq_refl eq_refl) as (Hparsed & _).
    apply Hparsed. reflexivity.
  - destruct (health_always_ok env_no_recipient world_down ∅
                req_health_unparsed eq_refl eq_refl) as (_ & Hunparsed).
    apply Hunparsed. reflexivity.
Defined.

Lemma only_contact_has_effects_witness :
  body_error req_health = None
  /\ res_content (serve env_ok world_ok ∅ req_health).1.1
     <> Json false (Some (js "Server error")).
Proof.
  split; [reflexivity|].
  destruct (only_contact_has_effects env_ok world_ok ∅ req_health eq_refl)
    as (_ & Hcontent).
  exact Hcontent.
Defined.
